(** * rivuletpy.soma: morphological snakes for soma detection

    A shallow embedding of [rivuletpy/soma.py] and the properties of its
    contour-evolution engine.

    numpy's [float64] is IEEE 754 binary64, embedded as Rocq's primitive
    [float].  A dense array is its shape and its elements in row-major
    order.  Python exceptions are values of [exn]; module-level globals
    ([_aux], the [curvop] cycle) and the outside world (console, files)
    live in an explicit [world] that every stateful function threads. *)

From Stdlib Require Import String List ZArith Bool Lia Floats.
Import ListNotations.

Set Warnings "-inexact-float".

(** ** Python exceptions and the state-and-exception monad *)

Inductive exn : Type :=
| ValueError (msg : string)
| IndexError
| TypeError
| RuntimeError
| UnboundLocalError
| ZeroDivisionError
| StopIteration.

Inductive result (A : Type) : Type :=
| Ok (a : A)
| Raise (e : exn).

Arguments Ok {A} a.
Arguments Raise {A} e.

(** A computation over a mutable state [S]: it returns normally or raises,
    and the state it leaves behind is kept in both cases. *)
Definition M (S A : Type) : Type := S -> result A * S.

Definition ret {S A : Type} (a : A) : M S A := fun s => (Ok a, s).

Definition raise {S A : Type} (e : exn) : M S A := fun s => (Raise e, s).

Definition bind {S A B : Type} (c : M S A) (k : A -> M S B) : M S B :=
  fun s =>
    match c s with
    | (Ok a, s') => k a s'
    | (Raise e, s') => (Raise e, s')
    end.

Definition get {S : Type} : M S S := fun s => (Ok s, s).

Definition put {S : Type} (s : S) : M S unit := fun _ => (Ok tt, s).

Definition lift {S A : Type} (r : result A) : M S A := fun s => (r, s).

Declare Scope py_scope.
Delimit Scope py_scope with py.
Notation "x <- c ;; k" := (bind c (fun x => k))
  (at level 61, c at next level, right associativity) : py_scope.
Notation "c ;; k" := (bind c (fun _ => k))
  (at level 61, right associativity) : py_scope.

(** [for x in l: body(x)] *)
Fixpoint for_each {S A : Type} (l : list A) (body : A -> M S unit) : M S unit :=
  match l with
  | [] => ret tt
  | x :: l' => bind (body x) (fun _ => for_each l' body)
  end.

(** [range(n)] for a Python int [n]; empty when [n <= 0]. *)
Definition range (n : Z) : list nat := seq 0 (Z.to_nat n).

(** ** float64 helpers *)

Module F.

Local Open Scope float_scope.

Definition of_bool (b : bool) : float := if b then 1 else 0.

(** Truth value of a float: everything but [0.0] and [-0.0], NaN included. *)
Definition nonzero (x : float) : bool := negb (x =? 0).

Definition gt (x y : float) : bool := y <? x.

Definition square (x : float) : float := x * x.

(** numpy's [maximum] and [minimum] inner loops (NaN-propagating). *)
Definition maximum (a b : float) : float :=
  if (b <=? a) || is_nan a then a else b.

Definition minimum (a b : float) : float :=
  if (a <=? b) || is_nan a then a else b.

(** Python's builtin two-argument [max] and [min]: the first argument is
    kept unless the second compares strictly greater (smaller). *)
Definition pymax (a b : float) : float := if a <? b then b else a.

Definition pymin (a b : float) : float := if b <? a then b else a.

(** Conversion of a Python int, rounded to nearest even. *)
Definition of_Z (z : Z) : float := SF2Prim (binary_normalize prec emax z 0 false).

Definition of_nat (n : nat) : float := of_Z (Z.of_nat n).

(** [np.floor]. *)
Definition floor (x : float) : float :=
  match Prim2SF x with
  | S754_finite s m e =>
      if (0 <=? e)%Z then x
      else
        let z := ((if s then Z.neg m else Z.pos m) / 2 ^ (- e))%Z in
        if (z =? 0)%Z then 0 else of_Z z
  | _ => x
  end.

(** [astype(int)]: truncation towards zero; NaN and the infinities give the
    x86-64 "integer indefinite" value. *)
Definition to_int (x : float) : Z :=
  match Prim2SF x with
  | S754_zero _ => 0
  | S754_finite s m e =>
      let a := (if (0 <=? e)%Z then Z.pos m * 2 ^ e else Z.pos m / 2 ^ (- e))%Z in
      if s then (- a)%Z else a
  | _ => (- 2 ^ 63)%Z
  end.

(** A quotient that is NaN or an infinity. *)
Definition nonfinite (x : float) : bool :=
  match Prim2SF x with
  | S754_nan | S754_infinity _ => true
  | _ => false
  end.

End F.

(** ** Dense arrays *)

Record ndarray (A : Type) : Type := NDArray {
  shape : list nat;
  elems : list A
}.

Arguments NDArray {A} shape elems.
Arguments shape {A} _.
Arguments elems {A} _.

Fixpoint size (sh : list nat) : nat :=
  match sh with
  | [] => 1
  | n :: sh' => n * size sh'
  end.

Definition ndim {A : Type} (a : ndarray A) : nat := length (shape a).

(** Every array numpy builds holds exactly [size shape] elements. *)
Definition wf {A : Type} (a : ndarray A) : Prop :=
  length (elems a) = size (shape a).

Definition shape_eqb (s1 s2 : list nat) : bool :=
  if list_eq_dec Nat.eq_dec s1 s2 then true else false.

(** All multi-indices of a shape, in row-major order. *)
Fixpoint indices (sh : list nat) : list (list Z) :=
  match sh with
  | [] => [[]]
  | n :: sh' =>
      flat_map (fun i => map (cons (Z.of_nat i)) (indices sh')) (seq 0 n)
  end.

(** Flat position of a multi-index, [None] outside the array. *)
Fixpoint ravel (sh : list nat) (idx : list Z) : option nat :=
  match sh, idx with
  | [], [] => Some 0
  | n :: sh', i :: idx' =>
      if ((0 <=? i) && (i <? Z.of_nat n))%Z then
        match ravel sh' idx' with
        | Some r => Some (Z.to_nat i * size sh' + r)
        | None => None
        end
      else None
  | _, _ => None
  end.

Definition item {A : Type} (a : ndarray A) (idx : list Z) : option A :=
  match ravel (shape a) idx with
  | Some p => nth_error (elems a) p
  | None => None
  end.

Definition tabulate {A : Type} (sh : list nat) (f : list Z -> A) : ndarray A :=
  NDArray sh (map f (indices sh)).

Definition amap {A B : Type} (f : A -> B) (a : ndarray A) : ndarray B :=
  NDArray (shape a) (map f (elems a)).

Fixpoint zip_with {A B C : Type} (f : A -> B -> C) (l1 : list A) (l2 : list B)
  : list C :=
  match l1, l2 with
  | x :: l1', y :: l2' => f x y :: zip_with f l1' l2'
  | _, _ => []
  end.

(** Element-wise binary operation on two arrays of one shape; the result
    takes the shape of the first. *)
Definition amap2 {A B C : Type} (f : A -> B -> C) (a : ndarray A) (b : ndarray B)
  : ndarray C :=
  NDArray (shape a) (zip_with f (elems a) (elems b)).

(** [a[i] = v] on a list; [None] when [i] is out of range. *)
Fixpoint set_nth {A : Type} (i : nat) (v : A) (l : list A) : option (list A) :=
  match l, i with
  | [], _ => None
  | _ :: l', O => Some (v :: l')
  | x :: l', S i' =>
      match set_nth i' v l' with
      | Some r => Some (x :: r)
      | None => None
      end
  end.

(** Add [d] to coordinate [k] of a multi-index. *)
Fixpoint shift (idx : list Z) (k : nat) (d : Z) : list Z :=
  match idx, k with
  | [], _ => []
  | i :: idx', O => (i + d)%Z :: idx'
  | i :: idx', S k' => i :: shift idx' k' d
  end.

(** ** The parts of numpy the module uses *)

Module np.

Local Open Scope float_scope.

Definition zeros (sh : list nat) : ndarray float :=
  NDArray sh (repeat 0 (size sh)).

Definition ones (sh : list nat) : ndarray float :=
  NDArray sh (repeat 1 (size sh)).

(** [a > c], [a < c], [a <= c] against a scalar: boolean masks. *)
Definition gt_scalar (a : ndarray float) (c : float) : ndarray bool :=
  amap (fun x => c <? x) a.

Definition lt_scalar (a : ndarray float) (c : float) : ndarray bool :=
  amap (fun x => x <? c) a.

Definition le_scalar (a : ndarray float) (c : float) : ndarray bool :=
  amap (fun x => x <=? c) a.

(** Boolean-mask indexing [a[mask]]: the selected elements, flattened. *)
Fixpoint select_list {A : Type} (l : list A) (mask : list bool) : list A :=
  match l, mask with
  | x :: l', b :: m' => if b then x :: select_list l' m' else select_list l' m'
  | _, _ => []
  end.

Definition select {A : Type} (a : ndarray A) (mask : ndarray bool) : list A :=
  select_list (elems a) (elems mask).

(** Masked scalar assignment [a[mask] = v]. *)
Definition assign_where {A : Type} (a : ndarray A) (mask : ndarray bool) (v : A)
  : ndarray A :=
  amap2 (fun x (b : bool) => if b then v else x) a mask.

(** Masked copy [a[mask] = b[mask]] between arrays of one shape. *)
Definition copy_where {A : Type} (a : ndarray A) (mask : ndarray bool)
    (b : ndarray A) : ndarray A :=
  NDArray (shape a)
    (zip_with (fun (xm : A * bool) y => if snd xm then y else fst xm)
       (combine (elems a) (elems mask)) (elems b)).

(** [.sum()] of floats: accumulated left to right from [0.0].  numpy may
    associate the additions of long arrays pairwise; the two agree whenever
    the partial sums are exact, as for integer-valued images. *)
Definition sum (l : list float) : float := fold_left add l 0.

(** [mask.sum()]: the number of [True] entries. *)
Definition count (mask : ndarray bool) : nat :=
  length (filter (fun b : bool => b) (elems mask)).

(** One component of [np.gradient] with unit spacing: second-order central
    differences inside, first-order one-sided differences at both ends. *)
Definition gradient_axis (f : ndarray float) (k : nat) : ndarray float :=
  let n := Z.of_nat (nth k (shape f) O) in
  let at_ idx := match item f idx with Some v => v | None => 0 end in
  tabulate (shape f) (fun idx =>
    let i := nth k idx 0%Z in
    if (i =? 0)%Z then (at_ (shift idx k 1) - at_ idx) / 1
    else if (i =? n - 1)%Z then (at_ idx - at_ (shift idx k (-1))) / 1
    else (at_ (shift idx k 1) - at_ (shift idx k (-1))) / 2).

(** [np.gradient(f)]: one array per axis; an axis shorter than two elements
    is refused. *)
Definition gradient (f : ndarray float) : result (list (ndarray float)) :=
  if forallb (fun n => 2 <=? n)%nat (shape f) then
    Ok (map (gradient_axis f) (seq 0 (ndim f)))
  else
    Raise (ValueError
      "Shape of array too small to calculate a numerical gradient, at least (edge_order + 1) elements are required.").

End np.

(** ** scipy.ndimage binary morphology

    [binary_erosion] and [binary_dilation] with their default arguments: one
    iteration, origin at the centre of the structuring element, border value
    0.  The input is read as booleans (non-zero is true). *)

Module ndimage.

(** The centre [shape // 2] of a structuring element. *)
Definition centre (sh : list nat) : list Z := map (fun n => Z.of_nat (n / 2)) sh.

(** Offsets, relative to the centre, of the true entries of [structure]. *)
Definition offsets (structure : ndarray float) : list (list Z) :=
  map (fun o => zip_with Z.sub o (centre (shape structure)))
    (filter
       (fun o => match item structure o with Some v => F.nonzero v | None => false end)
       (indices (shape structure))).

(** The boolean value of [input] at a multi-index; false outside the array
    (border value 0). *)
Definition truth (input : ndarray float) (idx : list Z) : bool :=
  match item input idx with
  | Some v => F.nonzero v
  | None => false
  end.

(** "structure and input must have same dimensionality" *)
Definition rank_error : exn := RuntimeError.

Definition binary_erosion (input structure : ndarray float)
  : result (ndarray bool) :=
  if (ndim structure =? ndim input)%nat then
    Ok (tabulate (shape input) (fun x =>
          forallb (fun o => truth input (zip_with Z.add x o)) (offsets structure)))
  else Raise rank_error.

Definition binary_dilation (input structure : ndarray float)
  : result (ndarray bool) :=
  if (ndim structure =? ndim input)%nat then
    Ok (tabulate (shape input) (fun x =>
          existsb (fun o => truth input (zip_with Z.sub x o)) (offsets structure)))
  else Raise rank_error.

End ndimage.

(** ** Module-level state and the outside world *)

(** The two composite operators the curvature operator alternates between. *)
Inductive curv_fn : Type := SIoIS | ISoSI.

(** An array whose first axis is kept as a list of sub-arrays: the scratch
    buffer [_aux], of numpy shape [(length rows,) + row_shape]. *)
Record stack : Type := Stack {
  row_shape : list nat;
  rows : list (list float)
}.

Inductive pyval : Type :=
| PStr (s : string)
| PFloat (x : float)
| PFloats (l : list float)
| PInts (l : list Z).

(** What the process does to its environment. *)
Inductive event : Type :=
| Print (args : list pyval)
| WriteTiff3d (path : string) (img : ndarray float).

Record world : Type := World {
  _aux : stack;                  (* the global scratch buffer of SI and IS *)
  curvop_funcs : list curv_fn;   (* the [cycle] iterator inside [curvop] *)
  events : list event            (* console and file output, oldest first *)
}.

(** [_aux = np.zeros((0))], [curvop = fcycle([SIoIS, ISoSI])], nothing output. *)
Definition initial_world : world := World (Stack [] []) [SIoIS; ISoSI] [].

Definition set_aux (w : world) (a : stack) : world :=
  World a (curvop_funcs w) (events w).

Definition set_funcs (w : world) (q : list curv_fn) : world :=
  World (_aux w) q (events w).

Definition emit (e : event) : M world unit :=
  fun w => (Ok tt, World (_aux w) (curvop_funcs w) (events w ++ [e])).

Definition print (args : list pyval) : M world unit := emit (Print args).

(** Modelled from the spec: [writetiff3d] of [rivuletpy/utils/io.py], which
    is not part of the sources at hand.  The spec only says that writing
    volumetric image files is the job of an external collaborator; the call
    is recorded as the file write it requests. *)
Definition writetiff3d (path : string) (img : ndarray float) : M world unit :=
  emit (WriteTiff3d path img).

(** Run a computation on the globals from inside a method of an object. *)
Definition globally {T A : Type} (c : M world A) : M (T * world) A :=
  fun s =>
    match c (snd s) with
    | (r, w') => (r, (fst s, w'))
    end.

(** ** Structuring elements

    [_P2 = [np.eye(3), np.array([[0,1,0]]*3), np.flipud(np.eye(3)),
            np.rot90([[0,1,0]]*3)]]; [_P3] is nine 3x3x3 arrays of zeros with
    one plane set to 1 each. *)

Definition pattern (sh : list nat) (p : list Z -> bool) : ndarray float :=
  tabulate sh (fun o => F.of_bool (p o)).

Definition pattern2 (p : Z -> Z -> bool) : ndarray float :=
  pattern [3; 3] (fun o => match o with [i; j] => p i j | _ => false end).

Definition pattern3 (p : Z -> Z -> Z -> bool) : ndarray float :=
  pattern [3; 3; 3] (fun o => match o with [i; j; k] => p i j k | _ => false end).

Definition _P2 : list (ndarray float) :=
  [ pattern2 (fun i j => i =? j)%Z;           (* np.eye(3) *)
    pattern2 (fun i j => j =? 1)%Z;           (* np.array([[0,1,0]]*3) *)
    pattern2 (fun i j => i + j =? 2)%Z;       (* np.flipud(np.eye(3)) *)
    pattern2 (fun i j => i =? 1)%Z ].         (* np.rot90([[0,1,0]]*3) *)

Definition _P3 : list (ndarray float) :=
  [ pattern3 (fun i j k => k =? 1)%Z;         (* _P3[0][:,:,1] = 1 *)
    pattern3 (fun i j k => j =? 1)%Z;         (* _P3[1][:,1,:] = 1 *)
    pattern3 (fun i j k => i =? 1)%Z;         (* _P3[2][1,:,:] = 1 *)
    pattern3 (fun i j k => j =? k)%Z;         (* _P3[3][:,[0,1,2],[0,1,2]] = 1 *)
    pattern3 (fun i j k => j + k =? 2)%Z;     (* _P3[4][:,[0,1,2],[2,1,0]] = 1 *)
    pattern3 (fun i j k => i =? k)%Z;         (* _P3[5][[0,1,2],:,[0,1,2]] = 1 *)
    pattern3 (fun i j k => i + k =? 2)%Z;     (* _P3[6][[0,1,2],:,[2,1,0]] = 1 *)
    pattern3 (fun i j k => i =? j)%Z;         (* _P3[7][[0,1,2],[0,1,2],:] = 1 *)
    pattern3 (fun i j k => i + j =? 2)%Z ].   (* _P3[8][[0,1,2],[2,1,0],:] = 1 *)

(** ** SI and IS *)

Definition invalid_dimensions : exn :=
  ValueError "u has an invalid number of dimensions (should be 2 or 3)".

Definition select_P (u : ndarray float) : result (list (ndarray float)) :=
  if (ndim u =? 2)%nat then Ok _P2
  else if (ndim u =? 3)%nat then Ok _P3
  else Raise invalid_dimensions.

(** [P[i]] *)
Definition getitem {A : Type} (l : list A) (i : nat) : result A :=
  match nth_error l i with
  | Some x => Ok x
  | None => Raise IndexError
  end.

(** [if u.shape != _aux.shape[1:]: _aux = np.zeros((len(P),) + u.shape)] *)
Definition ensure_aux (n : nat) (sh : list nat) : M world unit :=
  fun w =>
    if shape_eqb sh (row_shape (_aux w)) then (Ok tt, w)
    else (Ok tt, set_aux w (Stack sh (repeat (repeat 0%float (size sh)) n))).

(** [_aux[i] = b] for a boolean array [b]: the row is overwritten with the
    values 0.0 and 1.0. *)
Definition aux_setitem (i : nat) (b : ndarray bool) : M world unit :=
  fun w =>
    match set_nth i (map F.of_bool (elems b)) (rows (_aux w)) with
    | Some rs => (Ok tt, set_aux w (Stack (row_shape (_aux w)) rs))
    | None => (Raise IndexError, w)
    end.

Definition empty_reduction : exn :=
  ValueError "zero-size array to reduction operation which has no identity".

(** [_aux.max(0)] and [_aux.min(0)]: reduction along the first axis. *)
Definition reduce0 (op : float -> float -> float) (a : stack)
  : result (ndarray float) :=
  match rows a with
  | [] => Raise empty_reduction
  | r :: rs => Ok (NDArray (row_shape a) (fold_left (zip_with op) rs r))
  end.

Local Open Scope py_scope.

Definition SI (u : ndarray float) : M world (ndarray float) :=
  P <- lift (select_P u) ;;
  ensure_aux (length P) (shape u) ;;
  for_each (seq 0 (length P)) (fun i =>
    s <- lift (getitem P i) ;;
    e <- lift (ndimage.binary_erosion u s) ;;
    aux_setitem i e) ;;
  w <- get ;;
  lift (reduce0 F.maximum (_aux w)).

Definition IS (u : ndarray float) : M world (ndarray float) :=
  P <- lift (select_P u) ;;
  ensure_aux (length P) (shape u) ;;
  for_each (seq 0 (length P)) (fun i =>
    s <- lift (getitem P i) ;;
    e <- lift (ndimage.binary_dilation u s) ;;
    aux_setitem i e) ;;
  w <- get ;;
  lift (reduce0 F.minimum (_aux w)).

(** [SIoIS = lambda u: SI(IS(u))], [ISoSI = lambda u: IS(SI(u))] *)
Definition call (f : curv_fn) (u : ndarray float) : M world (ndarray float) :=
  match f with
  | SIoIS => v <- IS u ;; SI v
  | ISoSI => v <- SI u ;; IS v
  end.

(** [curvop = fcycle([SIoIS, ISoSI])]: each call takes the next function of
    the cycle and applies it. *)
Definition curvop (u : ndarray float) : M world (ndarray float) :=
  w <- get ;;
  match curvop_funcs w with
  | [] => raise StopIteration
  | f :: q => put (set_funcs w (q ++ [f])) ;; call f u
  end.

(** [for i in range(smoothing): res = curvop(res)] *)
Fixpoint smooth (n : nat) (res : ndarray float) : M world (ndarray float) :=
  match n with
  | O => ret res
  | S n' => r <- curvop res ;; smooth n' r
  end.

(** [circle_levelset(shape, center, sqradius)]: 1.0 where
    [sqradius - sqrt(sum((x - center)**2)) > 0], else 0.0.  [center] has one
    coordinate per axis. *)
Definition circle_levelset (sh : list nat) (center : list float) (sqradius : float)
  : result (ndarray float) :=
  if (length center =? length sh)%nat then
    Ok (tabulate sh (fun x =>
          let grid := zip_with (fun i c => F.of_Z i - c)%float x center in
          let phi := (sqradius - sqrt (np.sum (map F.square grid)))%float in
          F.of_bool (0 <? phi)%float))
  else Raise (ValueError "operands could not be broadcast together").

(** ** MorphACWE: morphological active contours without edges *)

Module MorphACWE.

Record t : Type := Make {
  _u : option (ndarray float);
  smoothing : Z;
  lambda1 : float;
  lambda2 : float;
  data : ndarray float
}.

Definition __init__ (data : ndarray float) (smoothing : Z) (lambda1 lambda2 : float)
  : t :=
  Make None smoothing lambda1 lambda2 data.

Definition set_u (self : t) (u : option (ndarray float)) : t :=
  Make u (smoothing self) (lambda1 self) (lambda2 self) (data self).

(** The binarisation [v[u>0] = 1; v[u<=0] = 0] of a copy [v] of [u]. *)
Definition binarize (u : ndarray float) : ndarray float :=
  let v := u in
  let v := np.assign_where v (np.gt_scalar u 0) 1%float in
  np.assign_where v (np.le_scalar u 0) 0%float.

(** [set_levelset(u)].  [np.double] of a 0-dimensional array is a scalar,
    which is stored and then refuses item assignment. *)
Definition set_levelset (u : ndarray float) : M (t * world) unit :=
  fun s =>
    match shape u with
    | [] => (Raise TypeError, (set_u (fst s) (Some u), snd s))
    | _ => (Ok tt, (set_u (fst s) (Some (binarize u)), snd s))
    end.

Definition unset_levelset : exn :=
  ValueError "the levelset function is not set (use set_levelset)".

(** [data[mask].sum() / float(mask.sum())] *)
Definition region_mean (data : ndarray float) (mask : ndarray bool) : float :=
  (np.sum (np.select data mask) / F.of_nat (np.count mask))%float.

(** [np.abs(np.array(np.gradient(u))).sum(0)].  For a one-dimensional [u]
    numpy returns the gradient itself rather than a list, so the sum over
    axis 0 is a single number, broadcast over [u] afterwards. *)
Definition abs_gradient_sum (u : ndarray float) (dres : list (ndarray float))
  : ndarray float :=
  match dres with
  | [g] => NDArray (shape u) (repeat (np.sum (map abs (elems g))) (size (shape u)))
  | _ => fold_left (amap2 add) (map (amap abs) dres) (np.zeros (shape u))
  end.

(** [abs_dres * (lambda1*(data - c1)**2 - lambda2*(data - c0)**2)] *)
Definition attachment (l1 l2 c0 c1 : float) (abs_dres data : ndarray float)
  : ndarray float :=
  amap2 (fun g d => g * (l1 * F.square (d - c1) - l2 * F.square (d - c0)))%float
    abs_dres data.

(** [res = np.copy(u); res[aux < 0] = 1; res[aux > 0] = 0] *)
Definition update (u aux : ndarray float) : ndarray float :=
  let res := u in
  let res := np.assign_where res (np.lt_scalar aux 0) 1%float in
  np.assign_where res (np.gt_scalar aux 0) 0%float.

(** The body of [step] once [u] is known to be set, up to the smoothing. *)
Definition evolve (self : t) (u : ndarray float) : result (ndarray float) :=
  let data := data self in
  let inside := np.gt_scalar u 0 in
  let outside := np.le_scalar u 0 in
  (* a boolean index must have the shape of the array it indexes *)
  if negb (shape_eqb (shape data) (shape u)) then Raise IndexError
  else
    let c0 := region_mean data outside in
    let c1 := region_mean data inside in
    match np.gradient u with
    | Raise e => Raise e
    | Ok dres =>
        let abs_dres := abs_gradient_sum u dres in
        let aux := attachment (lambda1 self) (lambda2 self) c0 c1 abs_dres data in
        Ok (update u aux)
    end.

Definition step : M (t * world) unit :=
  s <- get ;;
  let self := fst s in
  match _u self with
  | None => raise unset_levelset
  | Some u =>
      res <- lift (evolve self u) ;;
      res <- globally (smooth (Z.to_nat (smoothing self)) res) ;;
      s <- get ;;
      put (set_u (fst s) (Some res), snd s)
  end.

Definition run (iterations : Z) : M (t * world) unit :=
  for_each (range iterations) (fun _ => step).

(** [sum(u[u>0])]: Python's builtin [sum], left to right from 0. *)
Definition foreground (u : ndarray float) : float :=
  fold_left add (np.select u (np.gt_scalar u 0)) 0%float.

(** [a[i]] and [a[i] = v] on the two trace vectors; the indices the loop
    uses are always in range. *)
Definition at_ (a : list float) (i : nat) : float := nth i a 0%float.

Definition store (a : list float) (i : nat) (v : float) : list float :=
  match set_nth i v a with
  | Some a' => a'
  | None => a
  end.

(** [a[lo:hi]] *)
Definition slice (a : list float) (lo hi : nat) : list float :=
  firstn (hi - lo) (skipn lo a).

(** The stopping test as Python parses it: [|] binds tighter than [<], so
    the test is [abs(d) < (20 | (abs(d) < 0.1*fg))], the right operand being
    the integer 20 or 21. *)
Definition stop_test (cur_slider_diff fg : float) : bool :=
  let a := abs cur_slider_diff in
  (a <? F.of_Z (Z.lor 20 (Z.b2z (a <? 0.1 * fg))))%float.

(** The loop [for i in range(iterations)] of [autoconvg] from index [i] on,
    with [n] indices left. *)
Fixpoint autoconvg_loop (n i : nat) (foreground_num forward_diff_store : list float)
  : M (t * world) unit :=
  match n with
  | O => ret tt
  | S n' =>
      step ;;
      s <- get ;;
      match _u (fst s) with
      | None => raise TypeError
      | Some u =>
          let volu := foreground u in
          let foreground_num := store foreground_num i volu in
          if (0 <? i)%nat then
            let diff_step :=
              (at_ foreground_num i - at_ foreground_num (i - 1))%float in
            let forward_diff_store := store forward_diff_store (i - 1) diff_step in
            if (6 <? i)%nat then
              let cur_slider_diff := np.sum (slice forward_diff_store (i - 6) (i - 1)) in
              if stop_test cur_slider_diff (at_ foreground_num i) then
                globally (print [PStr "Perform the automatic converge"])
              else autoconvg_loop n' (S i) foreground_num forward_diff_store
            else autoconvg_loop n' (S i) foreground_num forward_diff_store
          else autoconvg_loop n' (S i) foreground_num forward_diff_store
      end
  end.

Definition iterations : nat := 200.

Definition autoconvg : M (t * world) unit :=
  autoconvg_loop iterations 0
    (repeat 0%float iterations) (repeat 0%float iterations).

End MorphACWE.

(** ** MorphGAC: morphological geodesic active contours *)

Module MorphGAC.

Record t : Type := Make {
  _u : option (ndarray float);
  _v : float;
  _theta : float;
  smoothing : Z;
  _data : ndarray float;
  _ddata : list (ndarray float);
  _threshold_mask : ndarray bool;
  _threshold_mask_v : ndarray bool;
  structure : ndarray float
}.

Definition set_u (self : t) (u : option (ndarray float)) : t :=
  Make u (_v self) (_theta self) (smoothing self) (_data self) (_ddata self)
    (_threshold_mask self) (_threshold_mask_v self) (structure self).

(** The quotient [self._theta/np.abs(self._v)] of [_update_mask]. *)
Definition mask_v_bound (theta v : float) : float := (theta / abs v)%float.

(** [_update_mask]: both masks are recomputed, the division is not guarded. *)
Definition _update_mask (self : t) : t :=
  Make (_u self) (_v self) (_theta self) (smoothing self) (_data self) (_ddata self)
    (np.gt_scalar (_data self) (_theta self))
    (np.gt_scalar (_data self) (mask_v_bound (_theta self) (_v self)))
    (structure self).

Definition set_balloon (v : float) (self : t) : t :=
  _update_mask
    (Make (_u self) v (_theta self) (smoothing self) (_data self) (_ddata self)
       (_threshold_mask self) (_threshold_mask_v self) (structure self)).

Definition set_threshold (theta : float) (self : t) : t :=
  _update_mask
    (Make (_u self) (_v self) theta (smoothing self) (_data self) (_ddata self)
       (_threshold_mask self) (_threshold_mask_v self) (structure self)).

(** [set_data]: [np.gradient] may refuse the data, in which case nothing but
    [_data] has been assigned; the caller then sees the exception. *)
Definition set_data (data : ndarray float) (self : t) : result t :=
  match np.gradient data with
  | Raise e => Raise e
  | Ok ddata =>
      let self :=
        _update_mask
          (Make (_u self) (_v self) (_theta self) (smoothing self) data ddata
             (_threshold_mask self) (_threshold_mask_v self) (structure self)) in
      Ok (Make (_u self) (_v self) (_theta self) (smoothing self) (_data self)
            (_ddata self) (_threshold_mask self) (_threshold_mask_v self)
            (np.ones (repeat 3 (ndim data))))
  end.

(** [__init__(data, smoothing, threshold, balloon)]; the attributes that
    [set_data] assigns do not exist before it runs and start here as empty
    arrays that are never read. *)
Definition __init__ (data : ndarray float) (smoothing : Z) (threshold balloon : float)
  : result t :=
  set_data data
    (Make None balloon threshold smoothing (NDArray [] []) [] (NDArray [] [])
       (NDArray [] []) (NDArray [] [])).

Definition set_levelset (u : ndarray float) : M (t * world) unit :=
  fun s =>
    match shape u with
    | [] => (Raise TypeError, (set_u (fst s) (Some u), snd s))
    | _ => (Ok tt, (set_u (fst s) (Some (MorphACWE.binarize u)), snd s))
    end.

Definition unset_levelset : exn :=
  ValueError "the levelset is not set (use set_levelset)".

(** The balloon force.  [aux] is bound only when [v > 0] or [v < 0]; a NaN
    [v] passes [v != 0] with [aux] unbound. *)
Definition balloon (self : t) (u : ndarray float) : result (ndarray float) :=
  let v := _v self in
  let res := u in
  let aux : result (option (ndarray bool)) :=
    if (0 <? v)%float then
      match ndimage.binary_dilation u (structure self) with
      | Ok a => Ok (Some a)
      | Raise e => Raise e
      end
    else if (v <? 0)%float then
      match ndimage.binary_erosion u (structure self) with
      | Ok a => Ok (Some a)
      | Raise e => Raise e
      end
    else Ok None in
  match aux with
  | Raise e => Raise e
  | Ok aux =>
      if negb (v =? 0)%float then
        match aux with
        | None => Raise UnboundLocalError
        | Some a =>
            if shape_eqb (shape (_threshold_mask_v self)) (shape res) then
              Ok (np.copy_where res (_threshold_mask_v self) (amap F.of_bool a))
            else Raise IndexError
        end
      else Ok res
  end.

(** [aux = np.zeros_like(res); for el1, el2 in zip(dgI, dres): aux += el1*el2]
    for a data field and a level set of one shape.  With a single axis both
    gradients are plain arrays and [zip] pairs their elements, so every entry
    of [aux] receives the same sum of products. *)
Definition attachment (dgI : list (ndarray float)) (res : ndarray float)
    (dres : list (ndarray float)) : ndarray float :=
  match dgI, dres with
  | [g], [r] =>
      let s := fold_left (fun acc p => acc + fst p * snd p)%float
                 (combine (elems g) (elems r)) 0%float in
      NDArray (shape res) (repeat s (size (shape res)))
  | _, _ =>
      fold_left (fun aux p => amap2 add aux (amap2 mul (fst p) (snd p)))
        (combine dgI dres) (np.zeros (shape res))
  end.

(** [res[aux > 0] = 1; res[aux < 0] = 0] *)
Definition update (res aux : ndarray float) : ndarray float :=
  let res := np.assign_where res (np.gt_scalar aux 0) 1%float in
  np.assign_where res (np.lt_scalar aux 0) 0%float.

(** The body of [step] once [u] is known to be set, up to the smoothing.
    numpy's broadcasting between a data field and a level set of different
    shapes is not modelled: such a pair is refused. *)
Definition evolve (self : t) (u : ndarray float) : result (ndarray float) :=
  match balloon self u with
  | Raise e => Raise e
  | Ok res =>
      match np.gradient res with
      | Raise e => Raise e
      | Ok dres =>
          if shape_eqb (shape (_data self)) (shape res) then
            Ok (update res (attachment (_ddata self) res dres))
          else Raise (ValueError "operands could not be broadcast together")
      end
  end.

Definition step : M (t * world) unit :=
  s <- get ;;
  let self := fst s in
  match _u self with
  | None => raise unset_levelset
  | Some u =>
      res <- lift (evolve self u) ;;
      res <- globally (smooth (Z.to_nat (smoothing self)) res) ;;
      s <- get ;;
      put (set_u (fst s) (Some res), snd s)
  end.

Definition run (iterations : Z) : M (t * world) unit :=
  for_each (range iterations) (fun _ => step).

End MorphGAC.

(** ** soma_detect *)

(** Normalisation of one bound of a slice on an axis of length [n]. *)
Definition slice_bound (n : nat) (i : Z) : Z :=
  if (i <? 0)%Z then Z.max (i + Z.of_nat n) 0 else Z.min i (Z.of_nat n).

(** Start and length of [a:b] on an axis of length [n]. *)
Definition slice_range (n : nat) (a b : Z) : Z * nat :=
  let lo := slice_bound n a in
  let hi := slice_bound n b in
  (lo, Z.to_nat (hi - lo)).

(** [img[s0:e0, s1:e1, s2:e2]]: the first three axes are sliced, any further
    axis is kept whole. *)
Definition crop3 (img : ndarray float) (startpt endpt : list Z) : ndarray float :=
  let rs := zip_with (fun n (se : Z * Z) => slice_range n (fst se) (snd se))
              (firstn 3 (shape img)) (combine startpt endpt) in
  let lo := map fst rs ++ repeat 0%Z (ndim img - 3) in
  tabulate (map snd rs ++ skipn 3 (shape img)) (fun x =>
    match item img (zip_with Z.add x lo) with
    | Some v => v
    | None => 0%float
    end).

(** [full = np.zeros(sh); full[s0:e0, s1:e1, s2:e2] = patch] *)
Definition paste3 (sh : list nat) (startpt endpt : list Z) (patch : ndarray float)
  : result (ndarray float) :=
  let rs := zip_with (fun n (se : Z * Z) => slice_range n (fst se) (snd se))
              sh (combine startpt endpt) in
  if shape_eqb (shape patch) (map snd rs) then
    Ok (tabulate sh (fun x =>
          match item patch (zip_with Z.sub x (map fst rs)) with
          | Some v => v
          | None => 0%float
          end))
  else Raise (ValueError "could not broadcast input array").

(** [a[i] = v] on a Python sequence. *)
Definition setitem {A : Type} (l : list A) (i : nat) (v : A) : result (list A) :=
  match set_nth i v l with
  | Some l' => Ok l'
  | None => Raise IndexError
  end.

(** [pt[k] = min(max(0, pt[k]), img.shape[k]-1)] *)
Definition clamp_axis (sh : list nat) (pt : list float) (k : nat)
  : result (list float) :=
  match getitem pt k with
  | Raise e => Raise e
  | Ok p =>
      match getitem sh k with
      | Raise e => Raise e
      | Ok n => setitem pt k (F.pymin (F.pymax 0%float p) (F.of_Z (Z.of_nat n - 1)))
      end
  end.

Definition clamp (sh : list nat) (pt : list float) : result (list float) :=
  match clamp_axis sh pt 0 with
  | Raise e => Raise e
  | Ok pt =>
      match clamp_axis sh pt 1 with
      | Raise e => Raise e
      | Ok pt => clamp_axis sh pt 2
      end
  end.

(** Python's true division of two non-negative ints. *)
Definition int_div (a b : nat) : result float :=
  match b with
  | O => Raise ZeroDivisionError
  | _ => Ok (F.of_nat a / F.of_nat b)%float
  end.

Definition somabox_path : string :=
  "/home/donghao/Desktop/zebrafishlarveRGC/2_somabox.tif".

(** Run the methods [c] of a fresh object [o]; its final state is returned
    with the result. *)
Definition with_object {T A : Type} (o : T) (c : M (T * world) A) : M world (A * T) :=
  fun w =>
    match c (o, w) with
    | (Ok a, (o', w')) => (Ok (a, o'), w')
    | (Raise e, (_, w')) => (Raise e, w')
    end.

(** The cast [astype(np.uint8)] of a float. *)
Definition to_uint8 (x : float) : Z := (F.to_int x mod 256)%Z.

(** [x**0.5] is the correctly rounded square root. *)
Definition soma_detect (img : ndarray float) (somapos : list Z) (somaradius : float)
    (smoothing : Z) (lambda1 lambda2 : float) (soma : bool) (iterations : Z)
  : M world (ndarray Z) :=
  n0 <- lift (getitem (shape img) 0) ;;
  n2 <- lift (getitem (shape img) 2) ;;
  ratioxz <- lift (int_div n0 n2) ;;
  n1 <- lift (getitem (shape img) 1) ;;
  ratioyz <- lift (int_div n1 n2) ;;
  print [PStr "The ratioxz is "; PFloat ratioxz; PStr "The ratioyz is "; PFloat ratioyz] ;;
  let sqrval := (sqrt somaradius * F.pymax ratioxz ratioyz)%float in
  let sqrval := F.floor (F.pymin (F.pymax sqrval 3) (sqrt somaradius * 6))%float in
  print [PStr "The replacesqrval is "; PFloat sqrval] ;;
  let startpt := map (fun p => F.of_Z p - 3 * sqrval)%float somapos in
  let endpt := map (fun p => F.of_Z p + 3 * sqrval)%float somapos in
  print [PFloats startpt; PFloats endpt] ;;
  startpt <- lift (clamp (shape img) startpt) ;;
  endpt <- lift (clamp (shape img) endpt) ;;
  let startpt := map F.to_int startpt in
  let endpt := map F.to_int endpt in
  print [PInts startpt; PInts endpt] ;;
  let somaimg := crop3 img startpt endpt in
  writetiff3d somabox_path somaimg ;;
  c0 <- lift (getitem (shape somaimg) 0) ;;
  c1 <- lift (getitem (shape somaimg) 1) ;;
  c2 <- lift (getitem (shape somaimg) 2) ;;
  let centerpt := map (fun n => F.floor (F.of_nat n / 2)%float) [c0; c1; c2] in
  print [PFloats centerpt] ;;
  let macwe := MorphACWE.__init__ somaimg smoothing lambda1 lambda2 in
  u0 <- lift (circle_levelset (shape somaimg) (map F.floor centerpt) sqrval) ;;
  r <- with_object macwe
         (MorphACWE.set_levelset u0 ;;
          if (iterations =? -1)%Z then MorphACWE.autoconvg
          else for_each (range iterations) (fun _ => MorphACWE.step)) ;;
  match MorphACWE._u (snd r) with
  | None => raise TypeError
  | Some u =>
      full <- lift (paste3 (firstn 3 (shape img)) startpt endpt
                      (amap (fun x => x * 40)%float u)) ;;
      ret (amap to_uint8 full)
  end.

(** ** Definitions used by the statements *)

(** *** Invariants of the globals *)

(** A scratch buffer that SI and IS can reuse: if its rows have rank 2 there
    are 4 of them, if they have rank 3 there are 9.  True of
    [np.zeros((0))] and kept by every call of SI and IS. *)
Definition aux_ok (w : world) : Prop :=
  (length (row_shape (_aux w)) = 2 -> length (rows (_aux w)) = 4) /\
  (length (row_shape (_aux w)) = 3 -> length (rows (_aux w)) = 9).

(** The globals as the module itself can leave them: a scratch buffer that
    fits the family of its rank, and a cycle that still has functions. *)
Definition world_ok (w : world) : Prop :=
  aux_ok w /\ curvop_funcs w <> [].

(** *** Level sets *)

(** The two values a level set may hold. *)
Definition bit (x : float) : Prop := x = 0%float \/ x = 1%float.

(** A level set with entries in {0, 1}. *)
Definition binary (a : ndarray float) : Prop :=
  Forall bit (elems a).

(** No NaN among the entries: a real-valued (possibly infinite) array. *)
Definition real_valued (a : ndarray float) : Prop :=
  Forall (fun x => is_nan x = false) (elems a).

(** Every axis has at least two elements, as [np.gradient] requires. *)
Definition gradable (sh : list nat) : Prop := Forall (fun n => 2 <= n) sh.

(** [v] is the binarisation of [u]: 1 where [u > 0], 0 where [u <= 0]. *)
Definition binarized (u v : ndarray float) : Prop :=
  shape v = shape u /\
  length (elems v) = length (elems u) /\
  forall p, p < length (elems u) ->
    ((0 <? nth p (elems u) 0)%float = true -> nth p (elems v) 0%float = 1%float) /\
    ((nth p (elems u) 0 <=? 0)%float = true -> nth p (elems v) 0%float = 0%float).

(** The invariant of an evolver between steps: its level set is bound and
    binary, and the scratch buffer is consistent. *)
Definition acwe_inv (s : MorphACWE.t * world) : Prop :=
  aux_ok (snd s) /\
  exists u, MorphACWE._u (fst s) = Some u /\ binary u.

(** The same for the edge evolver. *)
Definition gac_inv (s : MorphGAC.t * world) : Prop :=
  aux_ok (snd s) /\
  exists u, MorphGAC._u (fst s) = Some u /\ binary u.

(** *** SI and IS *)

(** The body of the loop [for i in range(len(P)): _aux[i] = op(u, P[i])],
    shared by SI ([op] the erosion) and IS ([op] the dilation). *)
Definition fill_body (op : ndarray float -> ndarray float -> result (ndarray bool))
    (u : ndarray float) (P : list (ndarray float)) (i : nat) : M world unit :=
  bind (lift (getitem P i)) (fun s =>
  bind (lift (op u s)) (fun e => aux_setitem i e)).

(** SI and IS are this one function, at the erosion with the maximum and at
    the dilation with the minimum. *)
Definition morph (op : ndarray float -> ndarray float -> result (ndarray bool))
    (red : float -> float -> float) (u : ndarray float) : M world (ndarray float) :=
  bind (lift (select_P u)) (fun P =>
  bind (ensure_aux (length P) (shape u)) (fun _ =>
  bind (for_each (seq 0 (length P)) (fill_body op u P)) (fun _ =>
  bind get (fun w => lift (reduce0 red (_aux w)))))).

(** The rows that the loop leaves in the buffer for the responses [es]. *)
Definition as_rows (es : list (ndarray bool)) : list (list float) :=
  map (fun e => map F.of_bool (elems e)) es.

(** The erosion and the dilation of [u] by [s] when the ranks agree. *)
Definition eroded (u s : ndarray float) : ndarray bool :=
  tabulate (shape u) (fun x =>
    forallb (fun o => ndimage.truth u (zip_with Z.add x o)) (ndimage.offsets s)).

Definition dilated (u s : ndarray float) : ndarray bool :=
  tabulate (shape u) (fun x =>
    existsb (fun o => ndimage.truth u (zip_with Z.sub x o)) (ndimage.offsets s)).

(** Reduction of a non-empty list, as numpy folds a reduction without
    identity: from the first element on. *)
Definition reduce_list (op : float -> float -> float) (l : list float) : float :=
  match l with
  | [] => 0%float
  | x :: l' => fold_left op l' x
  end.

(** What SI (with erosions [es] and [F.maximum]) and IS (with dilations and
    [F.minimum]) return for the family [es] of per-element responses. *)
Definition extremal (red : float -> float -> float) (u : ndarray float)
    (es : list (ndarray bool)) (r : ndarray float) : Prop :=
  shape r = shape u /\
  length (elems r) = size (shape u) /\
  forall p, p < size (shape u) ->
    nth p (elems r) 0%float
    = reduce_list red (map (fun e => F.of_bool (nth p (elems e) false)) es).


(** A reduction that returns one of its two arguments. *)
Definition selecting (red : float -> float -> float) : Prop :=
  forall a b, red a b = a \/ red a b = b.

(** Either the rank is 2 or 3 and the operator returns one fixed array and
    leaves one fixed buffer, whatever the buffer was before; or it raises
    and changes nothing. *)
Definition morph_outcome (c : M world (ndarray float)) (u : ndarray float) : Prop :=
  (exists r A,
      (ndim u = 2 \/ ndim u = 3) /\
      (forall w, aux_ok w -> c w = (Ok r, set_aux w A)) /\
      shape r = shape u /\ wf r /\ binary r /\
      (forall w, aux_ok (set_aux w A)))
  \/ (ndim u <> 2 /\ ndim u <> 3 /\
      forall w, c w = (Raise invalid_dimensions, w)).

(** *** One step of the region evolver *)


(** *** The automatic convergence loop *)

(** [k] calls of [step] in a row, stopping at the first that raises. *)
Definition steps (k : nat) : M (MorphACWE.t * world) unit :=
  for_each (seq 0 k) (fun _ => MorphACWE.step).

(** The console line that reports the early stop of [autoconvg]. *)
Definition report_convergence : M (MorphACWE.t * world) unit :=
  globally (print [PStr "Perform the automatic converge"]).

(** The three ways [c] can relate to [k] calls of [step] from [s] ending in
    [s']: a call raised; the loop ran to its cap [n]; or the loop stopped
    early, at the earliest after the index 6, and reported it. *)
Definition bounded_run (c : M (MorphACWE.t * world) unit) (n i k : nat)
    (s s' : MorphACWE.t * world) : Prop :=
  (exists e, steps k s = (Raise e, s') /\ c s = (Raise e, s')) \/
  (steps k s = (Ok tt, s') /\
   ((k = n /\ c s = (Ok tt, s')) \/
    (7 < i + k /\ c s = report_convergence s'))).

(** The foreground count after each of the first [k] steps from [s]. *)
Fixpoint foreground_trace (k : nat) (s : MorphACWE.t * world) : list float :=
  match k with
  | O => []
  | S k' =>
      let s1 := snd (MorphACWE.step s) in
      match MorphACWE._u (fst s1) with
      | Some u => MorphACWE.foreground u :: foreground_trace k' s1
      | None => []
      end
  end.

(** The stopping rule in the words of the design document: at iteration
    [i >= 7], sum the most recent 6 forward differences of the foreground
    count and stop when the magnitude of the sum is below 20 or below 10% of
    the current count. *)
Definition claimed_stop (foreground_num : list float) (i : nat) : bool :=
  let diffs :=
    map (fun j => (MorphACWE.at_ foreground_num (S j)
                   - MorphACWE.at_ foreground_num j)%float)
      (seq (i - 6) 6) in
  let d := abs (np.sum diffs) in
  ((d <? 20) || (d <? 0.1 * MorphACWE.at_ foreground_num i))%float.

(** *** Console and file output *)

(** A computation on the globals that outputs nothing. *)
Definition silent {A : Type} (c : M world A) : Prop :=
  forall w, events (snd (c w)) = events w.

(** [w'] has all the output of [w], and possibly more after it. *)
Definition extends (w w' : world) : Prop :=
  exists l, events w' = events w ++ l.

(** A method that only ever adds to the output. *)
Definition grows {T A : Type} (c : M (T * world) A) : Prop :=
  forall s, extends (snd s) (snd (snd (c s))).

(** *** Concrete inputs *)

(** The value of a result, with a default for a raised exception. *)
Definition value {A : Type} (r : result A) (d : A) : A :=
  match r with
  | Ok a => a
  | Raise _ => d
  end.

(** A 4x5 image with a bright blob, and a level set on it. *)
Definition blob_data : ndarray float :=
  NDArray [4; 5]
    [ 10;  10;  10;  10;  10;
      10; 200; 200; 200;  10;
      10; 200; 200; 200;  10;
      10;  10; 200;  10;  10 ]%float.

(** A level set on it: a 2x2 block inside the blob. *)
Definition blob_seed : ndarray float :=
  NDArray [4; 5]
    [ 0; 0; 0; 0; 0;
      0; 1; 1; 0; 0;
      0; 1; 1; 0; 0;
      0; 0; 0; 0; 0 ]%float.

(** The level set with an empty inside partition. *)
Definition all_zero : ndarray float := np.zeros [4; 5].

(** A region evolver on the blob image with [lambda1 = lambda2 = 1]. *)
Definition acwe_blob (smoothing : Z) (u : ndarray float) : MorphACWE.t :=
  MorphACWE.Make (Some u) smoothing 1 1 blob_data.

(** An edge evolver to which no level set has been bound. *)
Definition gac_blank : MorphGAC.t :=
  MorphGAC.Make None 0 0 1 blob_data [] (NDArray [] []) (NDArray [] [])
    (NDArray [] []).

(** A real-valued array to bind as a level set. *)
Definition raw_levelset : ndarray float :=
  NDArray [4; 5]
    [ -3;   0; 0.5;  -1;  -0;
      -1;   7;   2; 0.25; -2;
      -1; 1e9;   1;   3;  -5;
       0;  -1;   4;  -1; neg_infinity ]%float.

(** The globals after SI and IS have worked on some 3x3 array: same phase
    as [initial_world], another scratch buffer. *)
Definition used_world : world :=
  World (Stack [3; 3] (repeat (repeat 1%float 9) 4)) [SIoIS; ISoSI] [].

(** An 80x5 image whose rows 0..74 are bright.  Seeded with the rows 0..61
    and evolved without smoothing, the front advances by one row, 5 voxels,
    per step until it reaches the dark rows. *)
Definition strip_data : ndarray float :=
  tabulate [80; 5] (fun x =>
    match x with
    | i :: _ => if (i <? 75)%Z then 200%float else 0%float
    | [] => 0%float
    end).

(** Its seed. *)
Definition strip_seed : ndarray float :=
  tabulate [80; 5] (fun x =>
    match x with
    | i :: _ => if (i <? 62)%Z then 1%float else 0%float
    | [] => 0%float
    end).

(** The evolver on the strip image, ready to run. *)
Definition strip_start : MorphACWE.t * world :=
  snd (MorphACWE.set_levelset strip_seed
         (MorphACWE.__init__ strip_data 0 1 1, initial_world)).

(** A small volume with a bright 2x2x2 core, for [soma_detect]. *)
Definition soma_img : ndarray float :=
  tabulate [6; 6; 6] (fun x =>
    match x with
    | [i; j; k] =>
        if ((2 <=? i) && (i <=? 3) && (2 <=? j) && (j <=? 3)
            && (2 <=? k) && (k <=? 3))%Z
        then 200%float else 100%float
    | _ => 0%float
    end).

(** ** Definitions for further properties of the module *)

(** The structuring element [s], of rank [n], contains its own centre. *)
Definition centred (n : nat) (s : ndarray float) : Prop :=
  In (repeat 0%Z n) (ndimage.offsets s).

(** A one-dimensional level set, on which the smoothing is refused. *)
Definition line_evolver : MorphACWE.t :=
  MorphACWE.Make (Some (NDArray [4] [0; 1; 1; 0]%float)) 1 1 1
    (NDArray [4] [1; 2; 3; 4]%float).

(** The attributes that [set_data] and [_update_mask] derive are those of
    the current data, threshold and balloon. *)
Definition gac_derived (g : MorphGAC.t) : Prop :=
  np.gradient (MorphGAC._data g) = Ok (MorphGAC._ddata g) /\
  MorphGAC._threshold_mask g
  = np.gt_scalar (MorphGAC._data g) (MorphGAC._theta g) /\
  MorphGAC._threshold_mask_v g
  = np.gt_scalar (MorphGAC._data g)
      (MorphGAC.mask_v_bound (MorphGAC._theta g) (MorphGAC._v g)) /\
  MorphGAC.structure g = np.ones (repeat 3 (ndim (MorphGAC._data g))).

(** The public operations of a MorphGAC object: the four property setters,
    [step] and [run]. *)
Inductive gac_op : Type :=
  | SetLevelset (u : ndarray float)
  | SetBalloon (v : float)
  | SetThreshold (theta : float)
  | SetData (data : ndarray float)
  | Step
  | Run (iterations : Z).

(** [set_data] as a method: [self._data = data] has taken place when
    [np.gradient(data)] raises. *)
Definition set_data_method (data : ndarray float) : M (MorphGAC.t * world) unit :=
  fun s =>
    let self := fst s in
    match MorphGAC.set_data data self with
    | Ok self' => (Ok tt, (self', snd s))
    | Raise e =>
        (Raise e,
         (MorphGAC.Make (MorphGAC._u self) (MorphGAC._v self) (MorphGAC._theta self)
            (MorphGAC.smoothing self) data (MorphGAC._ddata self)
            (MorphGAC._threshold_mask self) (MorphGAC._threshold_mask_v self)
            (MorphGAC.structure self), snd s))
    end.

Definition gac_apply (op : gac_op) : M (MorphGAC.t * world) unit :=
  match op with
  | SetLevelset u => MorphGAC.set_levelset u
  | SetBalloon v => fun s => (Ok tt, (MorphGAC.set_balloon v (fst s), snd s))
  | SetThreshold theta => fun s => (Ok tt, (MorphGAC.set_threshold theta (fst s), snd s))
  | SetData data => set_data_method data
  | Step => MorphGAC.step
  | Run iterations => MorphGAC.run iterations
  end.

(** The evolver [g] with other masks. *)
Definition with_masks (g : MorphGAC.t) (m mv : ndarray bool) : MorphGAC.t :=
  MorphGAC.Make (MorphGAC._u g) (MorphGAC._v g) (MorphGAC._theta g)
    (MorphGAC.smoothing g) (MorphGAC._data g) (MorphGAC._ddata g) m mv
    (MorphGAC.structure g).

(** A session on an edge evolver. *)
Definition gac_session : list gac_op :=
  [SetLevelset blob_seed; SetBalloon 1; Step; SetThreshold 0.5; Run 2;
   SetData blob_data; SetBalloon 0; Step].

(** The two values of a soma mask. *)
Definition mask_value (z : Z) : Prop := z = 0%Z \/ z = 40%Z.

(** An image without a third axis, and one whose third axis is empty. *)
Definition flat_img : ndarray float := np.zeros [4; 5].

Definition hollow_img : ndarray float := np.zeros [4; 5; 0].

(** * Properties *)

(** ** Facts on float64 *)

Section FloatFacts.
Local Open Scope float_scope.

Lemma SF_zero : Prim2SF 0 = S754_zero false.
Proof. reflexivity. Qed.

Lemma SF_nan : Prim2SF nan = S754_nan.
Proof. reflexivity. Qed.

Lemma nan_unique (x : float) : Prim2SF x = S754_nan -> x = nan.
Proof.
  intro H. rewrite <- (SF2Prim_Prim2SF x), H. reflexivity.
Qed.

Lemma gt0_not_le0 (x : float) : (0 <? x) = true -> (x <=? 0) = false.
Proof.
  rewrite ltb_spec, leb_spec, SF_zero. unfold SFltb, SFleb.
  destruct (Prim2SF x) as [s|s| |s m e]; simpl; try destruct s; simpl; congruence.
Qed.


Lemma eq0_not_lt (x : float) :
  (x =? 0) = true -> (x <? 0) = false /\ (0 <? x) = false.
Proof.
  rewrite eqb_spec, !ltb_spec, SF_zero. unfold SFltb, SFeqb.
  destruct (Prim2SF x) as [s|s| |s m e]; simpl; try destruct s; simpl; try congruence; auto.
Qed.



Lemma real_sign (x : float) :
  is_nan x = false -> (0 <? x) = true \/ (x <=? 0) = true.
Proof.
  intro H. assert (N : Prim2SF x <> S754_nan).
  { intro E. apply nan_unique in E. subst. discriminate. }
  rewrite ltb_spec, leb_spec, SF_zero. unfold SFltb, SFleb.
  destruct (Prim2SF x) as [s|s| |s m e]; simpl; try destruct s; simpl; auto; congruence.
Qed.

Lemma sub_nan_r (x : float) : x - nan = nan.
Proof.
  apply nan_unique. rewrite sub_spec, SF_nan. destruct (Prim2SF x); reflexivity.
Qed.

Lemma mul_nan_r (x : float) : x * nan = nan.
Proof.
  apply nan_unique. rewrite mul_spec, SF_nan. destruct (Prim2SF x); reflexivity.
Qed.


Lemma sub_nan_l (x : float) : nan - x = nan.
Proof.
  apply nan_unique. rewrite sub_spec, SF_nan. destruct (Prim2SF x); reflexivity.
Qed.


Lemma maximum_of_bool (a b : bool) :
  F.maximum (F.of_bool a) (F.of_bool b) = F.of_bool (a || b).
Proof. destruct a, b; reflexivity. Qed.

Lemma minimum_of_bool (a b : bool) :
  F.minimum (F.of_bool a) (F.of_bool b) = F.of_bool (a && b).
Proof. destruct a, b; reflexivity. Qed.

End FloatFacts.

(** ** Lists and arrays *)

Section ListFacts.
Context {A B C : Type}.

Lemma zip_with_length (f : A -> B -> C) (l1 : list A) (l2 : list B) :
  length (zip_with f l1 l2) = Nat.min (length l1) (length l2).
Proof.
  revert l2. induction l1 as [|x l1 IH]; intros [|y l2]; simpl; auto.
Qed.

Lemma zip_with_nth (f : A -> B -> C) (l1 : list A) (l2 : list B) p da db dc :
  p < length l1 -> p < length l2 ->
  nth p (zip_with f l1 l2) dc = f (nth p l1 da) (nth p l2 db).
Proof.
  revert l2 p. induction l1 as [|x l1 IH]; intros [|y l2] [|p]; simpl;
    intros H1 H2; try lia; auto.
  apply IH; lia.
Qed.

Lemma set_nth_app (R1 : list A) (r v : A) (R2 : list A) :
  set_nth (length R1) v (R1 ++ r :: R2) = Some (R1 ++ v :: R2).
Proof.
  induction R1 as [|x R1 IH]; simpl; [reflexivity|]. now rewrite IH.
Qed.


End ListFacts.

Lemma indices_length (sh : list nat) : length (indices sh) = size sh.
Proof.
  induction sh as [|n sh IH]; simpl; [reflexivity|].
  generalize 0. induction n as [|n IHn]; intro k; simpl; [reflexivity|].
  rewrite length_app, length_map, IH, IHn. reflexivity.
Qed.

Lemma shape_eqb_true (s1 s2 : list nat) : shape_eqb s1 s2 = true <-> s1 = s2.
Proof.
  unfold shape_eqb. destruct (list_eq_dec Nat.eq_dec s1 s2); split; congruence.
Qed.

Lemma shape_eqb_refl (s : list nat) : shape_eqb s s = true.
Proof. now apply shape_eqb_true. Qed.

(** ** The scratch buffer and the loops of SI and IS *)

Lemma fill_rows op u (P2 : list (ndarray float)) (es : list (ndarray bool)) :
  Forall2 (fun s e => op u s = Ok e) P2 es ->
  forall P1 R1 R2 w,
    rows (_aux w) = R1 ++ R2 ->
    length R1 = length P1 ->
    length R2 = length P2 ->
    for_each (seq (length P1) (length P2)) (fill_body op u (P1 ++ P2)) w
    = (Ok tt, set_aux w (Stack (row_shape (_aux w)) (R1 ++ as_rows es))).
Proof.
  induction 1 as [|s e P2 es Hs _ IH]; intros P1 R1 R2 w HR HL1 HL2.
  - destruct R2; [|discriminate]. simpl. unfold ret.
    rewrite app_nil_r in *. rewrite <- HR. destruct w as [[rs r] q ev]; reflexivity.
  - destruct R2 as [|r R2]; [discriminate|].
    cbn [length seq for_each]. unfold bind at 1.
    assert (Hb : fill_body op u (P1 ++ s :: P2) (length P1) w
                 = (Ok tt, set_aux w (Stack (row_shape (_aux w))
                                        (R1 ++ map F.of_bool (elems e) :: R2)))).
    { unfold fill_body, bind, lift, getitem.
      rewrite nth_error_app2, Nat.sub_diag by lia. cbn [nth_error].
      rewrite Hs. unfold aux_setitem. rewrite HR, <- HL1, set_nth_app. reflexivity. }
    rewrite Hb.
    replace (P1 ++ s :: P2) with ((P1 ++ [s]) ++ P2) by now rewrite <- app_assoc.
    replace (S (length P1)) with (length (P1 ++ [s])) by (rewrite length_app; simpl; lia).
    rewrite (IH (P1 ++ [s]) (R1 ++ [map F.of_bool (elems e)]) R2).
    + cbn [as_rows map]. rewrite <- app_assoc. reflexivity.
    + cbn. now rewrite <- app_assoc.
    + rewrite !length_app. simpl. lia.
    + simpl in HL2. lia.
Qed.

Lemma SI_morph : SI = morph ndimage.binary_erosion F.maximum.
Proof. reflexivity. Qed.

Lemma IS_morph : IS = morph ndimage.binary_dilation F.minimum.
Proof. reflexivity. Qed.

Lemma select_P_cases (u : ndarray float) :
  (ndim u = 2 /\ select_P u = Ok _P2) \/
  (ndim u = 3 /\ select_P u = Ok _P3) \/
  (ndim u <> 2 /\ ndim u <> 3 /\ select_P u = Raise invalid_dimensions).
Proof.
  unfold select_P.
  destruct (Nat.eqb_spec (ndim u) 2) as [E2|N2]; [now left|].
  destruct (Nat.eqb_spec (ndim u) 3) as [E3|N3]; [right; now left|].
  right; right; auto.
Qed.

Lemma P2_ndim : Forall (fun s : ndarray float => ndim s = 2) _P2.
Proof. repeat constructor. Qed.

Lemma P3_ndim : Forall (fun s : ndarray float => ndim s = 3) _P3.
Proof. repeat constructor. Qed.

Lemma morph_raise op red (u : ndarray float) (w : world) :
  ndim u <> 2 -> ndim u <> 3 ->
  morph op red u w = (Raise invalid_dimensions, w).
Proof.
  intros N2 N3. unfold morph, bind, lift.
  destruct (select_P_cases u) as [[E _]|[[E _]|(_ & _ & ->)]]; congruence.
Qed.

Lemma ensure_aux_spec (n : nat) (sh : list nat) (w : world) :
  (length sh = 2 /\ n = 4) \/ (length sh = 3 /\ n = 9) -> aux_ok w ->
  exists R, length R = n /\
    ensure_aux n sh w = (Ok tt, set_aux w (Stack sh R)).
Proof.
  intros H [A2 A3]. unfold ensure_aux.
  destruct (shape_eqb sh (row_shape (_aux w))) eqn:E.
  - apply shape_eqb_true in E. exists (rows (_aux w)). split.
    + destruct H as [[L ->]|[L ->]]; [apply A2|apply A3]; congruence.
    + subst sh. destruct w as [[rs r] q ev]; reflexivity.
  - eexists. split; [|reflexivity]. now rewrite repeat_length.
Qed.

Lemma morph_run op red (u : ndarray float) (w : world)
    (P : list (ndarray float)) (es : list (ndarray bool)) :
  aux_ok w ->
  select_P u = Ok P ->
  Forall2 (fun s e => op u s = Ok e) P es ->
  morph op red u w
  = (reduce0 red (Stack (shape u) (as_rows es)),
     set_aux w (Stack (shape u) (as_rows es))).
Proof.
  intros Hw HP Hes. unfold morph. unfold bind at 1. unfold lift at 1. rewrite HP.
  assert (HL : (length (shape u) = 2 /\ length P = 4) \/
               (length (shape u) = 3 /\ length P = 9)).
  { destruct (select_P_cases u) as [[E S]|[[E S]|(_ & _ & S)]];
      rewrite S in HP; inversion HP; subst; [left|right]; split; auto. }
  destruct (ensure_aux_spec (length P) (shape u) w HL Hw) as (R & HR & HE).
  unfold bind at 1. rewrite HE. unfold bind at 1.
  rewrite (fill_rows op u P es Hes [] [] R); [|reflexivity|reflexivity|exact HR].
  unfold bind, get, lift. reflexivity.
Qed.

Lemma erosion_ok (u : ndarray float) (n : nat) (P : list (ndarray float)) :
  ndim u = n -> Forall (fun s : ndarray float => ndim s = n) P ->
  Forall2 (fun s e => ndimage.binary_erosion u s = Ok e) P (map (eroded u) P).
Proof.
  intros Hu. induction 1 as [|s P Hs _ IH]; constructor; auto.
  unfold ndimage.binary_erosion. rewrite Hs, Hu, Nat.eqb_refl. reflexivity.
Qed.

Lemma dilation_ok (u : ndarray float) (n : nat) (P : list (ndarray float)) :
  ndim u = n -> Forall (fun s : ndarray float => ndim s = n) P ->
  Forall2 (fun s e => ndimage.binary_dilation u s = Ok e) P (map (dilated u) P).
Proof.
  intros Hu. induction 1 as [|s P Hs _ IH]; constructor; auto.
  unfold ndimage.binary_dilation. rewrite Hs, Hu, Nat.eqb_refl. reflexivity.
Qed.

Lemma fold_zip_length (op : float -> float -> float) (L : nat) (rs : list (list float)) :
  Forall (fun r => length r = L) rs ->
  forall r0, length r0 = L -> length (fold_left (zip_with op) rs r0) = L.
Proof.
  induction 1 as [|r rs Hr _ IH]; intros r0 H0; simpl; auto.
  apply IH. rewrite zip_with_length. lia.
Qed.

Lemma fold_zip_nth (op : float -> float -> float) (L p : nat) (d : float)
    (rs : list (list float)) :
  p < L -> Forall (fun r => length r = L) rs ->
  forall r0, length r0 = L ->
    nth p (fold_left (zip_with op) rs r0) d
    = fold_left op (map (fun r => nth p r d) rs) (nth p r0 d).
Proof.
  intros Hp. induction 1 as [|r rs Hr _ IH]; intros r0 H0; simpl; auto.
  rewrite IH by (rewrite zip_with_length; lia).
  rewrite (zip_with_nth op r0 r p d d d) by lia. reflexivity.
Qed.

Lemma as_rows_length (sh : list nat) (f : ndarray float -> ndarray bool)
    (P : list (ndarray float)) :
  (forall s, length (elems (f s)) = size sh) ->
  Forall (fun r => length r = size sh) (as_rows (map f P)).
Proof.
  intro H. unfold as_rows. rewrite map_map. apply Forall_forall.
  intros r Hr. apply in_map_iff in Hr. destruct Hr as (s & <- & _).
  rewrite length_map. apply H.
Qed.

Lemma tabulate_length {A : Type} (sh : list nat) (f : list Z -> A) :
  length (elems (tabulate sh f)) = size sh.
Proof. unfold tabulate. simpl. now rewrite length_map, indices_length. Qed.

Lemma as_rows_nth (p : nat) (es : list (ndarray bool)) :
  map (fun r => nth p r 0%float) (as_rows es)
  = map (fun e => F.of_bool (nth p (elems e) false)) es.
Proof.
  unfold as_rows. rewrite map_map. apply map_ext. intro e.
  change 0%float with (F.of_bool false). apply map_nth.
Qed.

Lemma reduce0_extremal (red : float -> float -> float) (u : ndarray float)
    (f : ndarray float -> ndarray bool) (P : list (ndarray float)) :
  (forall s, length (elems (f s)) = size (shape u)) ->
  P <> [] ->
  exists r, reduce0 red (Stack (shape u) (as_rows (map f P))) = Ok r /\
            extremal red u (map f P) r.
Proof.
  intros Hf HP. destruct P as [|s P]; [congruence|].
  pose proof (as_rows_length (shape u) f (s :: P) Hf) as HR.
  unfold reduce0. cbn [rows row_shape]. 
  remember (as_rows (map f (s :: P))) as R eqn:ER.
  pose proof (as_rows_nth) as HN.
  destruct R as [|r0 rs]; [discriminate|].
  inversion HR as [|? ? H0 Hrs]; subst.
  eexists. split; [reflexivity|]. repeat split.
  - cbn [elems]. now apply fold_zip_length.
  - intros p Hp. cbn [elems].
    rewrite (fold_zip_nth red (size (shape u)) p 0%float rs Hp Hrs r0 H0).
    specialize (HN p (map f (s :: P))). rewrite <- ER in HN.
    rewrite <- HN. reflexivity.
Qed.



(** On values 0.0 and 1.0 the maximum is the logical OR and the minimum the
    logical AND, which is how the design document words SI and IS. *)
Lemma reduce_max_is_or (l : list bool) :
  l <> [] ->
  reduce_list F.maximum (map F.of_bool l) = F.of_bool (existsb (fun b => b) l).
Proof.
  destruct l as [|b l]; [congruence|]. intros _. cbn [map reduce_list existsb].
  revert b. induction l as [|c l IH]; intro b; cbn [map fold_left existsb].
  - now rewrite orb_false_r.
  - now rewrite maximum_of_bool, IH, orb_assoc.
Qed.

Lemma reduce_min_is_and (l : list bool) :
  l <> [] ->
  reduce_list F.minimum (map F.of_bool l) = F.of_bool (forallb (fun b => b) l).
Proof.
  destruct l as [|b l]; [congruence|]. intros _. cbn [map reduce_list forallb].
  revert b. induction l as [|c l IH]; intro b; cbn [map fold_left forallb].
  - now rewrite andb_true_r.
  - now rewrite minimum_of_bool, IH, andb_assoc.
Qed.

Lemma initial_aux_ok : aux_ok initial_world.
Proof. split; simpl; intro; discriminate. Qed.


(** ** Calling [step] before a level set is bound *)

Lemma acwe_step_unset (a : MorphACWE.t) (w : world) :
  MorphACWE._u a = None ->
  MorphACWE.step (a, w) = (Raise MorphACWE.unset_levelset, (a, w)).
Proof.
  intro Ha. unfold MorphACWE.step, bind, get. cbn [fst]. rewrite Ha. reflexivity.
Qed.

Lemma gac_step_unset (g : MorphGAC.t) (w : world) :
  MorphGAC._u g = None ->
  MorphGAC.step (g, w) = (Raise MorphGAC.unset_levelset, (g, w)).
Proof.
  intro Hg. unfold MorphGAC.step, bind, get. cbn [fst]. rewrite Hg. reflexivity.
Qed.

(** C7: for both evolvers, [step] on an evolver whose level set is unset
    raises the "level set is not set" [ValueError], and neither the evolver
    nor the globals are changed by the failed call. *)
Theorem step_unset_levelset (a : MorphACWE.t) (g : MorphGAC.t) (w : world) :
  MorphACWE._u a = None ->
  MorphGAC._u g = None ->
  MorphACWE.step (a, w) = (Raise MorphACWE.unset_levelset, (a, w)) /\
  MorphGAC.step (g, w) = (Raise MorphGAC.unset_levelset, (g, w)).
Proof.
  intros Ha Hg. split; [now apply acwe_step_unset|now apply gac_step_unset].
Qed.

Lemma step_unset_levelset_witness :
  MorphACWE._u (MorphACWE.__init__ blob_data 1 1 1) = None /\
  MorphGAC._u gac_blank = None /\
  MorphACWE.step (MorphACWE.__init__ blob_data 1 1 1, initial_world)
  = (Raise MorphACWE.unset_levelset,
     (MorphACWE.__init__ blob_data 1 1 1, initial_world)) /\
  MorphGAC.step (gac_blank, initial_world)
  = (Raise MorphGAC.unset_levelset, (gac_blank, initial_world)).
Proof.
  split; [reflexivity|]. split; [reflexivity|].
  apply (step_unset_levelset (MorphACWE.__init__ blob_data 1 1 1) gac_blank
           initial_world); reflexivity.
Defined.

(** ** The unguarded division of [_update_mask] *)

Lemma gradient_ok (f : ndarray float) :
  gradable (shape f) ->
  np.gradient f = Ok (map (np.gradient_axis f) (seq 0 (ndim f))).
Proof.
  intro H. unfold np.gradient.
  replace (forallb (fun n => 2 <=? n) (shape f)) with true; [reflexivity|].
  symmetry. apply forallb_forall. intros n Hn.
  apply Nat.leb_le. unfold gradable in H. rewrite Forall_forall in H. auto.
Qed.



(** ** What SI, IS and the curvature operator do to the globals *)

Lemma zip_with_Forall {A B C : Type} (P : A -> Prop) (Q : B -> Prop)
    (R : C -> Prop) (f : A -> B -> C) (l1 : list A) (l2 : list B) :
  (forall x y, P x -> Q y -> R (f x y)) ->
  Forall P l1 -> Forall Q l2 -> Forall R (zip_with f l1 l2).
Proof.
  intros Hf H1. revert l2. induction H1 as [|x l1 Hx _ IH]; intros l2 H2.
  - constructor.
  - destruct H2 as [|y l2 Hy H2]; simpl; constructor; auto.
Qed.

Lemma maximum_selecting : selecting F.maximum.
Proof. intros a b. unfold F.maximum. destruct (_ || _); auto. Qed.

Lemma minimum_selecting : selecting F.minimum.
Proof. intros a b. unfold F.minimum. destruct (_ || _); auto. Qed.

Lemma of_bool_bit (b : bool) : bit (F.of_bool b).
Proof. destruct b; [right|left]; reflexivity. Qed.

Lemma as_rows_bits (es : list (ndarray bool)) :
  Forall (Forall bit) (as_rows es).
Proof.
  unfold as_rows. apply Forall_forall. intros r Hr.
  apply in_map_iff in Hr. destruct Hr as (e & <- & _).
  apply Forall_forall. intros x Hx. apply in_map_iff in Hx.
  destruct Hx as (b & <- & _). apply of_bool_bit.
Qed.

Lemma fold_zip_bits (red : float -> float -> float) (rs : list (list float)) :
  selecting red -> Forall (Forall bit) rs ->
  forall r0, Forall bit r0 -> Forall bit (fold_left (zip_with red) rs r0).
Proof.
  intros Hred. induction 1 as [|r rs Hr _ IH]; intros r0 H0; simpl; auto.
  apply IH. apply (zip_with_Forall bit bit bit); auto.
  intros x y Hx Hy. destruct (Hred x y) as [-> | ->]; auto.
Qed.

Lemma reduce0_bits (red : float -> float -> float) (sh : list nat)
    (es : list (ndarray bool)) (r : ndarray float) :
  selecting red -> reduce0 red (Stack sh (as_rows es)) = Ok r -> binary r.
Proof.
  intros Hred. unfold reduce0. cbn [rows row_shape].
  pose proof (as_rows_bits es) as HB.
  destruct (as_rows es) as [|r0 rs]; [discriminate|].
  intros [= <-]. unfold binary. cbn [elems].
  inversion HB; subst. now apply fold_zip_bits.
Qed.

Lemma set_aux_ok (w : world) (sh : list nat) (R : list (list float)) :
  (length sh = 2 -> length R = 4) -> (length sh = 3 -> length R = 9) ->
  aux_ok (set_aux w (Stack sh R)).
Proof. intros H2 H3. split; cbn; auto. Qed.

Lemma morph_spec op (f : ndarray float -> ndarray float -> ndarray bool) red
    (u : ndarray float) :
  (forall n P, ndim u = n -> Forall (fun s : ndarray float => ndim s = n) P ->
               Forall2 (fun s e => op u s = Ok e) P (map (f u) P)) ->
  (forall s, length (elems (f u s)) = size (shape u)) ->
  selecting red ->
  morph_outcome (morph op red u) u.
Proof.
  intros Hop Hf Hred.
  assert (Main : forall n P, ndim u = n -> (n = 2 \/ n = 3) ->
            select_P u = Ok P -> Forall (fun s : ndarray float => ndim s = n) P ->
            (n = 2 -> length P = 4) -> (n = 3 -> length P = 9) -> P <> [] ->
            morph_outcome (morph op red u) u).
  { intros n P Hn Hn23 HP HF L2 L3 HN. left.
    destruct (reduce0_extremal red u (f u) P Hf HN) as (r & Hr & X1 & X2 & _).
    exists r, (Stack (shape u) (as_rows (map (f u) P))).
    split; [subst n; exact Hn23|].
    split; [|split; [exact X1|split; [|split]]].
    - intros w Hw. rewrite (morph_run op red u w P _ Hw HP (Hop n P Hn HF)), Hr.
      reflexivity.
    - unfold wf. now rewrite X2, X1.
    - eapply reduce0_bits; eauto.
    - intro w. apply set_aux_ok; unfold as_rows; rewrite !length_map;
        intro E; [apply L2|apply L3]; unfold ndim in Hn; congruence. }
  destruct (select_P_cases u) as [[E S]|[[E S]|(N2 & N3 & S)]].
  - apply (Main 2 _P2); auto using P2_ndim; try discriminate.
  - apply (Main 3 _P3); auto using P3_ndim; try discriminate.
  - right. split; [exact N2|]. split; [exact N3|].
    intro w. now apply morph_raise.
Qed.

Lemma SI_spec (u : ndarray float) : morph_outcome (SI u) u.
Proof.
  rewrite SI_morph. apply (morph_spec _ eroded).
  - intros n P. apply erosion_ok.
  - intro s. apply tabulate_length.
  - apply maximum_selecting.
Qed.

Lemma IS_spec (u : ndarray float) : morph_outcome (IS u) u.
Proof.
  rewrite IS_morph. apply (morph_spec _ dilated).
  - intros n P. apply dilation_ok.
  - intro s. apply tabulate_length.
  - apply minimum_selecting.
Qed.

Lemma call_spec (f : curv_fn) (u : ndarray float) : morph_outcome (call f u) u.
Proof.
  assert (Main : forall c1 c2 : ndarray float -> M world (ndarray float),
            (forall v, morph_outcome (c1 v) v) ->
            (forall v, morph_outcome (c2 v) v) ->
            morph_outcome (bind (c1 u) c2) u).
  { intros c1 c2 H1 H2.
    destruct (H1 u) as [(r1 & A1 & Hn & R1 & S1 & W1 & B1 & K1)|(N2 & N3 & R1)].
    - destruct (H2 r1) as [(r2 & A2 & Hn2 & R2 & S2 & W2 & B2 & K2)|(M2 & M3 & _)].
      + left. exists r2, A2. split; [exact Hn|].
        split; [|split; [congruence|auto]].
        intros w Hw. unfold bind. rewrite (R1 w Hw), (R2 _ (K1 w)). reflexivity.
      + exfalso. unfold ndim in *. rewrite S1 in *. tauto.
    - right. split; [exact N2|]. split; [exact N3|].
      intro w. unfold bind. now rewrite R1. }
  destruct f; cbn [call]; apply Main; auto using SI_spec, IS_spec.
Qed.

Lemma curvop_next (u : ndarray float) (w : world) (f : curv_fn) (q : list curv_fn) :
  curvop_funcs w = f :: q ->
  curvop u w = call f u (set_funcs w (q ++ [f])).
Proof. intro H. unfold curvop, bind, get, put. rewrite H. reflexivity. Qed.

Lemma curvop_exhausted (u : ndarray float) (w : world) :
  curvop_funcs w = [] -> curvop u w = (Raise StopIteration, w).
Proof. intro H. unfold curvop, bind, get, raise. rewrite H. reflexivity. Qed.

(** Everything later proofs need about the smoothing loop, by one induction
    on the number of repetitions. *)
Lemma smooth_spec (n : nat) :
  forall (u : ndarray float) (w : world) res w',
    aux_ok w -> smooth n u w = (res, w') ->
    aux_ok w' /\
    events w' = events w /\
    (curvop_funcs w <> [] -> curvop_funcs w' <> []) /\
    (forall r, res = Ok r ->
       shape r = shape u /\ (binary u -> binary r) /\ (wf u -> wf r)) /\
    (curvop_funcs w <> [] -> ndim u = 2 \/ ndim u = 3 \/ n = 0 ->
     exists r, res = Ok r) /\
    (forall w2, aux_ok w2 -> curvop_funcs w2 = curvop_funcs w ->
       fst (smooth n u w2) = res /\
       curvop_funcs (snd (smooth n u w2)) = curvop_funcs w').
Proof.
  induction n as [|n IH]; intros u w res w' Hw E.
  - cbn in E. injection E as <- <-.
    split; [exact Hw|]. split; [reflexivity|]. split; [auto|].
    split; [intros r [= <-]; auto|]. split; [eauto|].
    intros w2 _ Q2. cbn. auto.
  - cbn [smooth] in E. unfold bind in E.
    destruct (curvop_funcs w) as [|f q] eqn:Q.
    + rewrite (curvop_exhausted u w Q) in E. injection E as <- <-.
      split; [exact Hw|]. split; [reflexivity|].
      split; [intro X; now contradiction X|].
      split; [intros r; discriminate|].
      split; [intro X; now contradiction X|].
      intros w2 _ Q2. cbn [smooth]. unfold bind.
      rewrite (curvop_exhausted u w2 Q2). cbn. split; congruence.
    + rewrite (curvop_next u w f q Q) in E.
      assert (Hw1 : aux_ok (set_funcs w (q ++ [f]))) by exact Hw.
      destruct (call_spec f u)
        as [(r1 & A & Hn & R & S1 & W1 & B1 & K)|(N2 & N3 & R)].
      * rewrite (R _ Hw1) in E.
        destruct (IH r1 _ res w' (K _) E) as (I1 & I2 & I3 & I4 & I5 & I6).
        split; [exact I1|]. split; [exact I2|].
        split; [intros _; apply I3; cbn; now destruct q|].
        split; [|split].
        -- intros r Hr. destruct (I4 r Hr) as (J1 & J2 & J3).
           split; [congruence|]. split; auto.
        -- intros _ Hd. apply I5; [cbn; now destruct q|].
           unfold ndim in *. rewrite S1.
           destruct Hd as [?|[?|?]]; auto; discriminate.
        -- intros w2 Hw2 Q2. cbn [smooth]. unfold bind.
           rewrite (curvop_next u w2 f q Q2).
           rewrite (R (set_funcs w2 (q ++ [f])) Hw2).
           apply I6; [apply K|reflexivity].
      * rewrite R in E. injection E as <- <-.
        split; [exact Hw1|]. split; [reflexivity|].
        split; [intros _; cbn; now destruct q|].
        split; [intros r; discriminate|]. split.
        -- intros _ [?|[?|?]]; try tauto; discriminate.
        -- intros w2 Hw2 Q2. cbn [smooth]. unfold bind.
           rewrite (curvop_next u w2 f q Q2), R. cbn. auto.
Qed.

(** ** One step of either evolver, unfolded *)

Lemma acwe_step_unfold (a : MorphACWE.t) (u : ndarray float) (w : world) :
  MorphACWE._u a = Some u ->
  MorphACWE.step (a, w)
  = match MorphACWE.evolve a u with
    | Raise e => (Raise e, (a, w))
    | Ok res =>
        match smooth (Z.to_nat (MorphACWE.smoothing a)) res w with
        | (Ok r, w') => (Ok tt, (MorphACWE.set_u a (Some r), w'))
        | (Raise e, w') => (Raise e, (a, w'))
        end
    end.
Proof.
  intro H. unfold MorphACWE.step. unfold bind at 1. unfold get at 1.
  cbn [fst snd]. rewrite H. unfold bind at 1. unfold lift at 1.
  destruct (MorphACWE.evolve a u) as [res|e]; [|reflexivity].
  unfold bind at 1. unfold globally. cbn [fst snd].
  destruct (smooth _ res w) as [[r|e] w']; reflexivity.
Qed.

Lemma gac_step_unfold (g : MorphGAC.t) (u : ndarray float) (w : world) :
  MorphGAC._u g = Some u ->
  MorphGAC.step (g, w)
  = match MorphGAC.evolve g u with
    | Raise e => (Raise e, (g, w))
    | Ok res =>
        match smooth (Z.to_nat (MorphGAC.smoothing g)) res w with
        | (Ok r, w') => (Ok tt, (MorphGAC.set_u g (Some r), w'))
        | (Raise e, w') => (Raise e, (g, w'))
        end
    end.
Proof.
  intro H. unfold MorphGAC.step. unfold bind at 1. unfold get at 1.
  cbn [fst snd]. rewrite H. unfold bind at 1. unfold lift at 1.
  destruct (MorphGAC.evolve g u) as [res|e]; [|reflexivity].
  unfold bind at 1. unfold globally. cbn [fst snd].
  destruct (smooth _ res w) as [[r|e] w']; reflexivity.
Qed.

(** ** The level set stays binary *)

Lemma zip_with_map_r {A B C : Type} (f : A -> B -> C) (g : A -> B) (l : list A) :
  zip_with f l (map g l) = map (fun x => f x (g x)) l.
Proof. induction l as [|x l IH]; simpl; congruence. Qed.

Lemma zip_with_map_map {A B C D : Type} (f : B -> C -> D) (h : A -> B)
    (g : A -> C) (l : list A) :
  zip_with f (map h l) (map g l) = map (fun x => f (h x) (g x)) l.
Proof. induction l as [|x l IH]; simpl; congruence. Qed.

Lemma binarize_elems (u : ndarray float) :
  elems (MorphACWE.binarize u)
  = map (fun x => if (x <=? 0)%float then 0%float
                  else if (0 <? x)%float then 1%float else x) (elems u).
Proof.
  unfold MorphACWE.binarize, np.assign_where, np.gt_scalar, np.le_scalar, amap, amap2.
  cbn [elems shape]. rewrite zip_with_map_r, zip_with_map_map. reflexivity.
Qed.

Lemma binarize_binary (u : ndarray float) :
  real_valued u -> binary (MorphACWE.binarize u).
Proof.
  intro H. unfold binary. rewrite binarize_elems.
  apply Forall_forall. intros y Hy. apply in_map_iff in Hy.
  destruct Hy as (x & <- & Hx).
  unfold real_valued in H. rewrite Forall_forall in H.
  destruct (real_sign x (H x Hx)) as [G|L].
  - rewrite (gt0_not_le0 x G), G. now right.
  - rewrite L. now left.
Qed.

Lemma assign_where_bits (a : ndarray float) (m : ndarray bool) (v : float) :
  binary a -> bit v -> binary (np.assign_where a m v).
Proof.
  intros Ha Hv. unfold binary, np.assign_where, amap2. cbn [elems].
  apply (zip_with_Forall bit (fun _ => True) bit); auto.
  - intros x [] Hx _; auto.
  - apply Forall_forall. auto.
Qed.

Lemma bit0 : bit 0%float.
Proof. now left. Qed.

Lemma bit1 : bit 1%float.
Proof. now right. Qed.

Lemma acwe_evolve_binary (a : MorphACWE.t) (u res : ndarray float) :
  binary u -> MorphACWE.evolve a u = Ok res -> binary res.
Proof.
  intros Hu. unfold MorphACWE.evolve.
  destruct (negb _); [discriminate|].
  destruct (np.gradient u); [|discriminate].
  intros [= <-]. unfold MorphACWE.update.
  auto using assign_where_bits, bit0, bit1.
Qed.

Lemma combine_Forall_fst {A B : Type} (P : A -> Prop) (l1 : list A) (l2 : list B) :
  Forall P l1 -> Forall (fun p => P (fst p)) (combine l1 l2).
Proof.
  intro H. revert l2. induction H as [|x l1 Hx _ IH]; intros [|y l2]; simpl;
    constructor; auto.
Qed.

Lemma copy_where_bits (res : ndarray float) (m a : ndarray bool) :
  binary res -> binary (np.copy_where res m (amap F.of_bool a)).
Proof.
  intro H. unfold binary, np.copy_where, amap. cbn [elems].
  apply (zip_with_Forall (fun p : float * bool => bit (fst p)) bit bit).
  - intros [x b] y Hx Hy. cbn in *. destruct b; auto.
  - now apply combine_Forall_fst.
  - apply Forall_forall. intros y Hy. apply in_map_iff in Hy.
    destruct Hy as (b & <- & _). apply of_bool_bit.
Qed.

Lemma gac_balloon_binary (g : MorphGAC.t) (u res : ndarray float) :
  binary u -> MorphGAC.balloon g u = Ok res -> binary res.
Proof.
  intros Hu. unfold MorphGAC.balloon.
  set (aux := if (0 <? MorphGAC._v g)%float then _ else _).
  destruct aux as [[a|]|e]; try discriminate.
  - destruct (negb _).
    + destruct (shape_eqb _ _); [|discriminate].
      intros [= <-]. now apply copy_where_bits.
    + now intros [= <-].
  - destruct (negb _); [discriminate|]. now intros [= <-].
Qed.

Lemma gac_evolve_binary (g : MorphGAC.t) (u res : ndarray float) :
  binary u -> MorphGAC.evolve g u = Ok res -> binary res.
Proof.
  intros Hu. unfold MorphGAC.evolve.
  destruct (MorphGAC.balloon g u) as [r|e] eqn:B; [|discriminate].
  apply (gac_balloon_binary g u r Hu) in B.
  destruct (np.gradient r); [|discriminate].
  destruct (shape_eqb _ _); [|discriminate].
  intros [= <-]. unfold MorphGAC.update.
  auto using assign_where_bits, bit0, bit1.
Qed.

Lemma acwe_step_binary (s : MorphACWE.t * world) :
  acwe_inv s -> acwe_inv (snd (MorphACWE.step s)).
Proof.
  destruct s as [a w]. intros (Hw & u & Hu & Bu). rewrite (acwe_step_unfold a u w Hu).
  destruct (MorphACWE.evolve a u) as [res|e] eqn:E.
  - apply (acwe_evolve_binary a u res Bu) in E.
    destruct (smooth _ res w) as [[r|e] w'] eqn:S;
      destruct (smooth_spec _ res w _ w' Hw S) as (I1 & _ & _ & I4 & _).
    + split; [exact I1|]. exists r. split; [reflexivity|].
      destruct (I4 r eq_refl) as (_ & J & _). auto.
    + split; [exact I1|]. exists u. auto.
  - split; [exact Hw|]. exists u. auto.
Qed.

Lemma gac_step_binary (s : MorphGAC.t * world) :
  gac_inv s -> gac_inv (snd (MorphGAC.step s)).
Proof.
  destruct s as [g w]. intros (Hw & u & Hu & Bu). rewrite (gac_step_unfold g u w Hu).
  destruct (MorphGAC.evolve g u) as [res|e] eqn:E.
  - apply (gac_evolve_binary g u res Bu) in E.
    destruct (smooth _ res w) as [[r|e] w'] eqn:S;
      destruct (smooth_spec _ res w _ w' Hw S) as (I1 & _ & _ & I4 & _).
    + split; [exact I1|]. exists r. split; [reflexivity|].
      destruct (I4 r eq_refl) as (_ & J & _). auto.
    + split; [exact I1|]. exists u. auto.
  - split; [exact Hw|]. exists u. auto.
Qed.

Lemma for_each_inv {S A : Type} (Inv : S -> Prop) (body : A -> M S unit)
    (l : list A) :
  (forall x s, Inv s -> Inv (snd (body x s))) ->
  forall s, Inv s -> Inv (snd (for_each l body s)).
Proof.
  intro H. induction l as [|x l IH]; intros s Hs; [exact Hs|].
  cbn [for_each]. unfold bind. specialize (H x s Hs).
  destruct (body x s) as [[[]|e] s']; cbn in *; auto.
Qed.

Lemma binarize_binarized (u : ndarray float) :
  binarized u (MorphACWE.binarize u).
Proof.
  split; [reflexivity|]. rewrite binarize_elems.
  split; [apply length_map|]. intros p Hp.
  set (f := fun x : float => _).
  replace (nth p (map f (elems u)) 0%float) with (f (nth p (elems u) 0%float))
    by (symmetry; exact (map_nth f (elems u) 0%float p)).
  unfold f. split.
  - intro G. now rewrite (gt0_not_le0 _ G), G.
  - intro L. now rewrite L.
Qed.

(** C8: [set_levelset] of either evolver stores, for a real-valued array of
    rank at least 1, the field that is exactly 1 where [u > 0] and exactly 0
    where [u <= 0]; and after any number of further [step] calls of either
    evolver, whether they succeed or raise, the level set has all its
    entries in {0, 1}. *)
Theorem levelset_stays_binary
    (u : ndarray float) (a : MorphACWE.t) (g : MorphGAC.t) (w : world) (n : Z) :
  shape u <> [] -> real_valued u -> aux_ok w ->
  let sa := MorphACWE.set_levelset u (a, w) in
  let sg := MorphGAC.set_levelset u (g, w) in
  fst sa = Ok tt /\ fst sg = Ok tt /\
  (exists v, MorphACWE._u (fst (snd sa)) = Some v /\
             MorphGAC._u (fst (snd sg)) = Some v /\
             binarized u v /\ binary v) /\
  (exists v, MorphACWE._u (fst (snd (MorphACWE.run n (snd sa)))) = Some v /\
             binary v) /\
  (exists v, MorphGAC._u (fst (snd (MorphGAC.run n (snd sg)))) = Some v /\
             binary v).
Proof.
  intros Hs Hr Hw sa sg.
  assert (Ea : sa = (Ok tt, (MorphACWE.set_u a (Some (MorphACWE.binarize u)), w))).
  { unfold sa, MorphACWE.set_levelset. destruct (shape u); [congruence|reflexivity]. }
  assert (Eg : sg = (Ok tt, (MorphGAC.set_u g (Some (MorphACWE.binarize u)), w))).
  { unfold sg, MorphGAC.set_levelset. destruct (shape u); [congruence|reflexivity]. }
  pose proof (binarize_binary u Hr) as Hb.
  rewrite Ea, Eg. cbn [fst snd].
  split; [reflexivity|]. split; [reflexivity|]. split; [|split].
  - exists (MorphACWE.binarize u).
    split; [reflexivity|]. split; [reflexivity|].
    split; [apply binarize_binarized|exact Hb].
  - apply (for_each_inv acwe_inv (fun _ => MorphACWE.step) (range n)
             (fun _ => acwe_step_binary)).
    split; [exact Hw|]. exists (MorphACWE.binarize u). auto.
  - apply (for_each_inv gac_inv (fun _ => MorphGAC.step) (range n)
             (fun _ => gac_step_binary)).
    split; [exact Hw|]. exists (MorphACWE.binarize u). auto.
Qed.

Lemma levelset_stays_binary_witness :
  shape raw_levelset <> [] /\ real_valued raw_levelset /\ aux_ok initial_world /\
  let sa := MorphACWE.set_levelset raw_levelset
              (MorphACWE.__init__ blob_data 1 1 1, initial_world) in
  let sg := MorphGAC.set_levelset raw_levelset
              (value (MorphGAC.__init__ blob_data 1 0 1) gac_blank, initial_world) in
  fst sa = Ok tt /\ fst sg = Ok tt /\
  (exists v, MorphACWE._u (fst (snd sa)) = Some v /\
             MorphGAC._u (fst (snd sg)) = Some v /\
             binarized raw_levelset v /\ binary v) /\
  (exists v, MorphACWE._u (fst (snd (MorphACWE.run 2 (snd sa)))) = Some v /\
             binary v) /\
  (exists v, MorphGAC._u (fst (snd (MorphGAC.run 2 (snd sg)))) = Some v /\
             binary v).
Proof.
  assert (H1 : shape raw_levelset <> []) by discriminate.
  assert (H2 : real_valued raw_levelset).
  { unfold real_valued, raw_levelset. cbn [elems]. repeat constructor. }
  assert (H3 : aux_ok initial_world) by (split; simpl; intro; discriminate).
  split; [exact H1|]. split; [exact H2|]. split; [exact H3|].
  exact (levelset_stays_binary raw_levelset (MorphACWE.__init__ blob_data 1 1 1)
           (value (MorphGAC.__init__ blob_data 1 0 1) gac_blank) initial_world 2
           H1 H2 H3).
Defined.

(** ** One step of the region evolver, voxel by voxel *)

Lemma fold_amap2_elems (f : float -> float -> float) (gs : list (ndarray float)) :
  forall a0,
    elems (fold_left (amap2 f) gs a0)
    = fold_left (zip_with f) (map (fun g => elems g) gs) (elems a0).
Proof. induction gs as [|g gs IH]; intro a0; simpl; [reflexivity|]. now rewrite IH. Qed.

Lemma fold_amap2_shape (f : float -> float -> float) (gs : list (ndarray float)) :
  forall a0, shape (fold_left (amap2 f) gs a0) = shape a0.
Proof. induction gs as [|g gs IH]; intro a0; simpl; [reflexivity|]. now rewrite IH. Qed.

Lemma zeros_length (sh : list nat) : length (elems (np.zeros sh)) = size sh.
Proof. unfold np.zeros. cbn. apply repeat_length. Qed.

Lemma abs_gradient_sum_spec (u : ndarray float) (dres : list (ndarray float)) :
  length dres <> 1 ->
  Forall (fun g => length (elems g) = size (shape u)) dres ->
  shape (MorphACWE.abs_gradient_sum u dres) = shape u /\
  length (elems (MorphACWE.abs_gradient_sum u dres)) = size (shape u) /\
  forall p, p < size (shape u) ->
    nth p (elems (MorphACWE.abs_gradient_sum u dres)) 0%float
    = fold_left add (map (fun g => abs (nth p (elems g) 0%float)) dres) 0%float.
Proof.
  intros H1 HF.
  assert (E : MorphACWE.abs_gradient_sum u dres
              = fold_left (amap2 add) (map (amap abs) dres) (np.zeros (shape u))).
  { unfold MorphACWE.abs_gradient_sum. destruct dres as [|g [|g' l]]; try reflexivity.
    now contradiction H1. }
  rewrite E. clear E H1.
  assert (HL : Forall (fun r => length r = size (shape u))
                 (map (fun g => elems g) (map (amap abs) dres))).
  { rewrite map_map. apply Forall_forall. intros r Hr. apply in_map_iff in Hr.
    destruct Hr as (g & <- & Hg). cbn. rewrite length_map.
    rewrite Forall_forall in HF. auto. }
  split; [now rewrite fold_amap2_shape|]. rewrite fold_amap2_elems. split.
  - apply fold_zip_length; [exact HL|apply zeros_length].
  - intros p Hp.
    rewrite (fold_zip_nth add (size (shape u)) p 0%float _ Hp HL _ (zeros_length _)).
    rewrite !map_map. f_equal.
    + apply map_ext. intro g. cbn. exact (map_nth abs (elems g) 0%float p).
    + unfold np.zeros. cbn. apply nth_repeat.
Qed.

Lemma gradient_axis_length (u : ndarray float) (k : nat) :
  length (elems (np.gradient_axis u k)) = size (shape u).
Proof. unfold np.gradient_axis. apply tabulate_length. Qed.

Lemma gradient_lengths (u : ndarray float) :
  Forall (fun g => length (elems g) = size (shape u))
    (map (np.gradient_axis u) (seq 0 (ndim u))).
Proof.
  apply Forall_forall. intros g Hg. apply in_map_iff in Hg.
  destruct Hg as (k & <- & _). apply gradient_axis_length.
Qed.

Lemma update_spec (u aux : ndarray float) :
  shape (MorphACWE.update u aux) = shape u /\
  elems (MorphACWE.update u aux)
  = zip_with (fun x a => if (0 <? a)%float then 0%float
                         else if (a <? 0)%float then 1%float else x)
      (elems u) (elems aux).
Proof.
  split; [reflexivity|].
  unfold MorphACWE.update, np.assign_where, np.lt_scalar, np.gt_scalar, amap2, amap.
  cbn [elems shape]. generalize (elems u) (elems aux).
  induction l as [|x l IH]; intros [|a l']; simpl; try reflexivity.
  now rewrite IH.
Qed.

Lemma acwe_evolve_ok (self : MorphACWE.t) (u : ndarray float) :
  shape (MorphACWE.data self) = shape u -> gradable (shape u) ->
  MorphACWE.evolve self u
  = Ok (MorphACWE.update u
          (MorphACWE.attachment (MorphACWE.lambda1 self) (MorphACWE.lambda2 self)
             (MorphACWE.region_mean (MorphACWE.data self) (np.le_scalar u 0))
             (MorphACWE.region_mean (MorphACWE.data self) (np.gt_scalar u 0))
             (MorphACWE.abs_gradient_sum u
                (map (np.gradient_axis u) (seq 0 (ndim u))))
             (MorphACWE.data self))).
Proof.
  intros Hs Hg. unfold MorphACWE.evolve.
  rewrite Hs, shape_eqb_refl, (gradient_ok u Hg). reflexivity.
Qed.



(** ** A step on a degenerate partition *)

Lemma select_none {A : Type} (l : list A) (m : list bool) :
  filter (fun b : bool => b) m = [] -> np.select_list l m = [].
Proof.
  revert m. induction l as [|x l IH]; intros [|b m]; simpl; auto.
  destruct b; [discriminate|]. auto.
Qed.

Lemma empty_region_mean (data : ndarray float) (mask : ndarray bool) :
  np.count mask = 0 -> MorphACWE.region_mean data mask = nan.
Proof.
  unfold MorphACWE.region_mean, np.select, np.count. intro H.
  apply length_zero_iff_nil in H. rewrite (select_none _ _ H), H. reflexivity.
Qed.

Lemma attachment_nan (l1 l2 c0 c1 : float) (g d : ndarray float) :
  c0 = nan \/ c1 = nan ->
  Forall (fun a => a = nan) (elems (MorphACWE.attachment l1 l2 c0 c1 g d)).
Proof.
  intro H. unfold MorphACWE.attachment, amap2. cbn [elems].
  apply (zip_with_Forall (fun _ => True) (fun _ => True) (fun a => a = nan));
    try (apply Forall_forall; auto).
  intros x y _ _. unfold F.square. cbv beta. destruct H as [-> | ->].
  - now rewrite sub_nan_r, !mul_nan_r, sub_nan_r, mul_nan_r.
  - now rewrite sub_nan_r, !mul_nan_r, sub_nan_l, mul_nan_r.
Qed.

Lemma update_nan (u aux : ndarray float) :
  length (elems u) <= length (elems aux) ->
  Forall (fun a => a = nan) (elems aux) ->
  MorphACWE.update u aux = u.
Proof.
  intros HL HN. destruct (update_spec u aux) as (U1 & U2).
  destruct (MorphACWE.update u aux) as [sh el]. destruct u as [shu elu].
  cbn [shape elems] in *. subst sh. f_equal. rewrite U2. clear U2.
  revert HN HL. generalize (elems aux). clear aux.
  induction elu as [|x l IH]; intros [|a l'] HN HL; simpl in *; try reflexivity; try lia.
  inversion HN; subst. cbn. f_equal. apply IH; auto. lia.
Qed.

(** C1, as the code has it: with an empty inside or outside partition
    (volume and level set of one shape, rank 2 or 3, every axis of length at
    least 2) [step] raises nothing.  The mean of the empty partition is
    0/0 = NaN ([c1] when no voxel has [u > 0], [c0] when no voxel has
    [u <= 0]); the energy field [aux] that the step computes from it is NaN
    at every voxel; the update therefore changes no voxel; and the step
    returns normally with the level set given by the smoothing alone. *)
Theorem step_degenerate_partition (self : MorphACWE.t) (u : ndarray float) (w : world) :
  MorphACWE._u self = Some u ->
  wf u -> wf (MorphACWE.data self) ->
  shape (MorphACWE.data self) = shape u ->
  ndim u = 2 \/ ndim u = 3 -> gradable (shape u) -> world_ok w ->
  np.count (np.gt_scalar u 0) = 0 \/ np.count (np.le_scalar u 0) = 0 ->
  let c0 := MorphACWE.region_mean (MorphACWE.data self) (np.le_scalar u 0) in
  let c1 := MorphACWE.region_mean (MorphACWE.data self) (np.gt_scalar u 0) in
  (np.count (np.gt_scalar u 0) = 0 -> c1 = nan) /\
  (np.count (np.le_scalar u 0) = 0 -> c0 = nan) /\
  exists dres,
    np.gradient u = Ok dres /\
    let aux :=
      MorphACWE.attachment (MorphACWE.lambda1 self) (MorphACWE.lambda2 self) c0 c1
        (MorphACWE.abs_gradient_sum u dres) (MorphACWE.data self) in
    length (elems aux) = size (shape u) /\
    (forall p, p < size (shape u) -> nth p (elems aux) 0%float = nan) /\
    MorphACWE.evolve self u = Ok (MorphACWE.update u aux) /\
    MorphACWE.update u aux = u /\
    MorphACWE.evolve self u = Ok u /\
    exists r w',
      smooth (Z.to_nat (MorphACWE.smoothing self)) u w = (Ok r, w') /\
      MorphACWE.step (self, w) = (Ok tt, (MorphACWE.set_u self (Some r), w')).
Proof.
  intros Hu Wu Wd Hs Hn Hg [Hw Hq] He c0 c1.
  split; [intro E; now apply empty_region_mean|].
  split; [intro E; now apply empty_region_mean|].
  assert (Hc : c0 = nan \/ c1 = nan).
  { destruct He as [E|E]; [right|left]; now apply empty_region_mean. }
  set (dres := map (np.gradient_axis u) (seq 0 (ndim u))).
  exists dres. split; [now apply gradient_ok|]. cbv zeta.
  set (aux := MorphACWE.attachment _ _ c0 c1 _ _).
  destruct (abs_gradient_sum_spec u dres) as (G1 & G2 & G3).
  { unfold dres. rewrite length_map, length_seq. lia. }
  { apply gradient_lengths. }
  assert (La : length (elems aux) = size (shape u)).
  { unfold aux, MorphACWE.attachment, amap2. cbn [elems].
    rewrite zip_with_length, G2. unfold wf in Wd. rewrite Wd, Hs. lia. }
  assert (Na : Forall (fun a => a = nan) (elems aux))
    by (apply attachment_nan; exact Hc).
  assert (Up : MorphACWE.update u aux = u).
  { apply update_nan; [|exact Na]. unfold wf in Wu. lia. }
  assert (Ev : MorphACWE.evolve self u = Ok (MorphACWE.update u aux))
    by (rewrite (acwe_evolve_ok self u Hs Hg); reflexivity).
  split; [exact La|]. split.
  { intros p Hp. rewrite Forall_forall in Na. apply Na. apply nth_In. lia. }
  split; [exact Ev|]. split; [exact Up|].
  rewrite Up in Ev. split; [exact Ev|].
  destruct (smooth (Z.to_nat (MorphACWE.smoothing self)) u w) as [res w'] eqn:S.
  destruct (smooth_spec _ u w res w' Hw S) as (_ & _ & _ & _ & I5 & _).
  destruct (I5 Hq) as (r & ->); [tauto|].
  exists r, w'. split; [reflexivity|].
  now rewrite (acwe_step_unfold self u w Hu), Ev, S.
Qed.

Lemma initial_world_ok : world_ok initial_world.
Proof. split; [apply initial_aux_ok|discriminate]. Qed.

Lemma step_degenerate_partition_witness :
  MorphACWE._u (acwe_blob 1 all_zero) = Some all_zero /\
  wf all_zero /\ wf (MorphACWE.data (acwe_blob 1 all_zero)) /\
  shape (MorphACWE.data (acwe_blob 1 all_zero)) = shape all_zero /\
  (ndim all_zero = 2 \/ ndim all_zero = 3) /\
  gradable (shape all_zero) /\ world_ok initial_world /\
  (np.count (np.gt_scalar all_zero 0) = 0 \/
   np.count (np.le_scalar all_zero 0) = 0) /\
  let c0 := MorphACWE.region_mean (MorphACWE.data (acwe_blob 1 all_zero))
              (np.le_scalar all_zero 0) in
  let c1 := MorphACWE.region_mean (MorphACWE.data (acwe_blob 1 all_zero))
              (np.gt_scalar all_zero 0) in
  (np.count (np.gt_scalar all_zero 0) = 0 -> c1 = nan) /\
  (np.count (np.le_scalar all_zero 0) = 0 -> c0 = nan) /\
  exists dres,
    np.gradient all_zero = Ok dres /\
    let aux :=
      MorphACWE.attachment (MorphACWE.lambda1 (acwe_blob 1 all_zero))
        (MorphACWE.lambda2 (acwe_blob 1 all_zero)) c0 c1
        (MorphACWE.abs_gradient_sum all_zero dres)
        (MorphACWE.data (acwe_blob 1 all_zero)) in
    length (elems aux) = size (shape all_zero) /\
    (forall p, p < size (shape all_zero) -> nth p (elems aux) 0%float = nan) /\
    MorphACWE.evolve (acwe_blob 1 all_zero) all_zero
    = Ok (MorphACWE.update all_zero aux) /\
    MorphACWE.update all_zero aux = all_zero /\
    MorphACWE.evolve (acwe_blob 1 all_zero) all_zero = Ok all_zero /\
    exists r w',
      smooth (Z.to_nat (MorphACWE.smoothing (acwe_blob 1 all_zero))) all_zero
        initial_world = (Ok r, w') /\
      MorphACWE.step (acwe_blob 1 all_zero, initial_world)
      = (Ok tt, (MorphACWE.set_u (acwe_blob 1 all_zero) (Some r), w')).
Proof.
  assert (H1 : MorphACWE._u (acwe_blob 1 all_zero) = Some all_zero) by reflexivity.
  assert (H2 : wf all_zero) by reflexivity.
  assert (H3 : wf (MorphACWE.data (acwe_blob 1 all_zero))) by reflexivity.
  assert (H4 : shape (MorphACWE.data (acwe_blob 1 all_zero)) = shape all_zero)
    by reflexivity.
  assert (H5 : ndim all_zero = 2 \/ ndim all_zero = 3) by (left; reflexivity).
  assert (H6 : gradable (shape all_zero)).
  { unfold gradable, all_zero. simpl. repeat constructor; lia. }
  assert (H7 : world_ok initial_world).
  { split; [split; simpl; intro; discriminate|discriminate]. }
  assert (H8 : np.count (np.gt_scalar all_zero 0) = 0 \/
               np.count (np.le_scalar all_zero 0) = 0) by (left; reflexivity).
  repeat (split; [assumption|]).
  exact (step_degenerate_partition (acwe_blob 1 all_zero) all_zero initial_world
           H1 H2 H3 H4 H5 H6 H7 H8).
Defined.

(** C1 as stated fails: on the all-zero level set the inside partition is
    empty, its mean is NaN, and [step] returns normally. *)
Lemma step_degenerate_partition_counterexample :
  np.count (np.gt_scalar all_zero 0) = 0 /\
  MorphACWE.region_mean blob_data (np.gt_scalar all_zero 0) = nan /\
  fst (MorphACWE.step (acwe_blob 1 all_zero, initial_world)) = Ok tt /\
  MorphACWE._u (fst (snd (MorphACWE.step (acwe_blob 1 all_zero, initial_world))))
  = Some all_zero.
Proof. repeat split; vm_compute; reflexivity. Qed.

(** The invariant of the globals survives a step, whether it succeeds or
    raises. *)
Lemma acwe_step_keeps_world (a : MorphACWE.t) (w : world) :
  world_ok w -> world_ok (snd (snd (MorphACWE.step (a, w)))).
Proof.
  intros [Hw Hq]. destruct (MorphACWE._u a) as [u|] eqn:U.
  - rewrite (acwe_step_unfold a u w U).
    destruct (MorphACWE.evolve a u) as [res|e]; [|now split].
    destruct (smooth _ res w) as [r w'] eqn:S.
    destruct (smooth_spec _ res w r w' Hw S) as (I1 & _ & I3 & _).
    destruct r; split; auto.
  - rewrite (acwe_step_unset a w U). now split.
Qed.

(** ** Determinism of a step *)

(** C9, with the smoothing count among the inputs: two invocations of
    [step] that start from the same volume, level set, [lambda1], [lambda2],
    smoothing count and the same phase of the curvature operator's cycle
    return the same result (normally or the same exception), leave the same
    level set and the same phase; the contents of the global scratch buffer
    do not matter. *)
Theorem step_deterministic (a1 a2 : MorphACWE.t) (w1 w2 : world) :
  aux_ok w1 -> aux_ok w2 ->
  MorphACWE.data a1 = MorphACWE.data a2 ->
  MorphACWE._u a1 = MorphACWE._u a2 ->
  MorphACWE.lambda1 a1 = MorphACWE.lambda1 a2 ->
  MorphACWE.lambda2 a1 = MorphACWE.lambda2 a2 ->
  MorphACWE.smoothing a1 = MorphACWE.smoothing a2 ->
  curvop_funcs w1 = curvop_funcs w2 ->
  fst (MorphACWE.step (a1, w1)) = fst (MorphACWE.step (a2, w2)) /\
  MorphACWE._u (fst (snd (MorphACWE.step (a1, w1))))
  = MorphACWE._u (fst (snd (MorphACWE.step (a2, w2)))) /\
  curvop_funcs (snd (snd (MorphACWE.step (a1, w1))))
  = curvop_funcs (snd (snd (MorphACWE.step (a2, w2)))).
Proof.
  intros H1 H2 Ed Eu E1 E2 Es Eq.
  destruct a1 as [u1 s1 l1 m1 d1], a2 as [u2 s2 l2 m2 d2]. cbn in Ed, Eu, E1, E2, Es.
  subst u2 s2 l2 m2 d2. set (a := MorphACWE.Make u1 s1 l1 m1 d1).
  destruct u1 as [u|].
  - rewrite !(acwe_step_unfold a u) by reflexivity.
    destruct (MorphACWE.evolve a u) as [res|e]; [|cbn; auto].
    destruct (smooth (Z.to_nat (MorphACWE.smoothing a)) res w1) as [r1 w1'] eqn:S1.
    destruct (smooth_spec _ res w1 r1 w1' H1 S1) as (_ & _ & _ & _ & _ & D).
    destruct (D w2 H2 (eq_sym Eq)) as (D1 & D2).
    destruct (smooth (Z.to_nat (MorphACWE.smoothing a)) res w2) as [r2 w2'].
    cbn in D1, D2. subst r2. destruct r1; cbn; auto.
  - rewrite !acwe_step_unset by reflexivity. cbn. auto.
Qed.

Lemma step_deterministic_witness :
  aux_ok initial_world /\ aux_ok used_world /\
  MorphACWE.data (acwe_blob 1 blob_seed) = MorphACWE.data (acwe_blob 1 blob_seed) /\
  MorphACWE._u (acwe_blob 1 blob_seed) = MorphACWE._u (acwe_blob 1 blob_seed) /\
  MorphACWE.lambda1 (acwe_blob 1 blob_seed) = MorphACWE.lambda1 (acwe_blob 1 blob_seed) /\
  MorphACWE.lambda2 (acwe_blob 1 blob_seed) = MorphACWE.lambda2 (acwe_blob 1 blob_seed) /\
  MorphACWE.smoothing (acwe_blob 1 blob_seed)
  = MorphACWE.smoothing (acwe_blob 1 blob_seed) /\
  curvop_funcs initial_world = curvop_funcs used_world /\
  fst (MorphACWE.step (acwe_blob 1 blob_seed, initial_world))
  = fst (MorphACWE.step (acwe_blob 1 blob_seed, used_world)) /\
  MorphACWE._u (fst (snd (MorphACWE.step (acwe_blob 1 blob_seed, initial_world))))
  = MorphACWE._u (fst (snd (MorphACWE.step (acwe_blob 1 blob_seed, used_world)))) /\
  curvop_funcs (snd (snd (MorphACWE.step (acwe_blob 1 blob_seed, initial_world))))
  = curvop_funcs (snd (snd (MorphACWE.step (acwe_blob 1 blob_seed, used_world)))).
Proof.
  assert (H1 : aux_ok initial_world) by (split; simpl; intro; discriminate).
  assert (H2 : aux_ok used_world) by (split; simpl; intro; [reflexivity|discriminate]).
  split; [exact H1|]. split; [exact H2|].
  do 5 (split; [reflexivity|]). split; [reflexivity|].
  exact (step_deterministic (acwe_blob 1 blob_seed) (acwe_blob 1 blob_seed)
           initial_world used_world H1 H2 eq_refl eq_refl eq_refl eq_refl eq_refl
           eq_refl).
Defined.

(** C9 as stated fails: the five listed inputs do not determine the next
    level set, the smoothing count does too.  Same volume, level set,
    [lambda1], [lambda2] and phase, smoothing 0 against smoothing 1: the
    voxel (1,1) ends as 1 in one run and as 0 in the other. *)
Lemma step_deterministic_counterexample :
  MorphACWE.data (acwe_blob 0 blob_seed) = MorphACWE.data (acwe_blob 1 blob_seed) /\
  MorphACWE._u (acwe_blob 0 blob_seed) = MorphACWE._u (acwe_blob 1 blob_seed) /\
  MorphACWE.lambda1 (acwe_blob 0 blob_seed) = MorphACWE.lambda1 (acwe_blob 1 blob_seed) /\
  MorphACWE.lambda2 (acwe_blob 0 blob_seed) = MorphACWE.lambda2 (acwe_blob 1 blob_seed) /\
  curvop_funcs initial_world = curvop_funcs initial_world /\
  fst (MorphACWE.step (acwe_blob 0 blob_seed, initial_world)) = Ok tt /\
  fst (MorphACWE.step (acwe_blob 1 blob_seed, initial_world)) = Ok tt /\
  MorphACWE._u (fst (snd (MorphACWE.step (acwe_blob 0 blob_seed, initial_world))))
  <> MorphACWE._u (fst (snd (MorphACWE.step (acwe_blob 1 blob_seed, initial_world)))).
Proof.
  do 5 (split; [reflexivity|]).
  split; [vm_compute; reflexivity|]. split; [vm_compute; reflexivity|].
  intro H.
  apply (f_equal (fun o : option (ndarray float) =>
                    match o with
                    | Some r => F.to_int (nth 6 (elems r) 0%float)
                    | None => 0%Z
                    end)) in H.
  vm_compute in H. discriminate.
Qed.

(** ** The automatic convergence loop *)

Lemma for_each_const {S A : Type} (c : M S unit) (l1 l2 : list A) :
  length l1 = length l2 ->
  for_each l1 (fun _ => c) = for_each l2 (fun _ => c).
Proof.
  revert l2. induction l1 as [|x l1 IH]; intros [|y l2] H; try discriminate.
  - reflexivity.
  - cbn [for_each]. rewrite (IH l2); [reflexivity|]. simpl in H. lia.
Qed.

Lemma steps_S (k : nat) (s : MorphACWE.t * world) :
  steps (S k) s
  = match MorphACWE.step s with
    | (Ok _, s1) => steps k s1
    | (Raise e, s1) => (Raise e, s1)
    end.
Proof.
  unfold steps. cbn [seq for_each]. unfold bind.
  rewrite (for_each_const MorphACWE.step (seq 1 k) (seq 0 k))
    by now rewrite !length_seq.
  reflexivity.
Qed.

Lemma run_steps (k : nat) : MorphACWE.run (Z.of_nat k) = steps k.
Proof. unfold MorphACWE.run, range, steps. now rewrite Nat2Z.id. Qed.

Lemma acwe_step_bound (s s1 : MorphACWE.t * world) :
  MorphACWE.step s = (Ok tt, s1) -> exists u, MorphACWE._u (fst s1) = Some u.
Proof.
  destruct s as [a w]. destruct (MorphACWE._u a) as [u|] eqn:U.
  - rewrite (acwe_step_unfold a u w U).
    destruct (MorphACWE.evolve a u) as [res|e]; [|discriminate].
    destruct (smooth _ res w) as [[r|e] w']; [|discriminate].
    intros [= <-]. now exists r.
  - rewrite (acwe_step_unset a w U). discriminate.
Qed.

Lemma autoconvg_loop_S (n i : nat) (fg fd : list float) (s : MorphACWE.t * world) :
  MorphACWE.autoconvg_loop (S n) i fg fd s
  = match MorphACWE.step s with
    | (Raise e, s1) => (Raise e, s1)
    | (Ok _, s1) =>
        match MorphACWE._u (fst s1) with
        | None => (Raise TypeError, s1)
        | Some u =>
            let fg' := MorphACWE.store fg i (MorphACWE.foreground u) in
            let fd' :=
              MorphACWE.store fd (i - 1)
                (MorphACWE.at_ fg' i - MorphACWE.at_ fg' (i - 1))%float in
            if (0 <? i)%nat then
              if (6 <? i)%nat then
                if MorphACWE.stop_test
                     (np.sum (MorphACWE.slice fd' (i - 6) (i - 1)))
                     (MorphACWE.at_ fg' i)
                then report_convergence s1
                else MorphACWE.autoconvg_loop n (S i) fg' fd' s1
              else MorphACWE.autoconvg_loop n (S i) fg' fd' s1
            else MorphACWE.autoconvg_loop n (S i) fg' fd s1
        end
    end.
Proof.
  cbn [MorphACWE.autoconvg_loop]. unfold bind at 1.
  destruct (MorphACWE.step s) as [[[]|e] s1]; [|reflexivity].
  unfold bind at 1. unfold get at 1.
  destruct (MorphACWE._u (fst s1)) as [u|]; [|reflexivity].
  cbv zeta. destruct (0 <? i)%nat; [|reflexivity].
  destruct (6 <? i)%nat; [|reflexivity].
  destruct (MorphACWE.stop_test _ _); reflexivity.
Qed.

Lemma autoconvg_loop_bounded (n : nat) :
  forall i fg fd s,
  exists k s', k <= n /\
    bounded_run (MorphACWE.autoconvg_loop n i fg fd) n i k s s'.
Proof.
  induction n as [|n IH]; intros i fg fd s.
  - exists 0, s. split; [lia|]. right. split; [reflexivity|]. left. now split.
  - destruct (MorphACWE.step s) as [[[]|e] s1] eqn:St.
    + destruct (acwe_step_bound s s1 St) as (u & U).
      assert (Rec : forall fg' fd' (c : M (MorphACWE.t * world) unit),
                c s = MorphACWE.autoconvg_loop n (S i) fg' fd' s1 ->
                exists k s', k <= S n /\ bounded_run c (S n) i k s s').
      { intros fg' fd' c Hc. destruct (IH (S i) fg' fd' s1) as (k & s' & Hk & B).
        exists (S k), s'. split; [lia|].
        unfold bounded_run. rewrite steps_S, St, Hc.
        destruct B as [(e & B1 & B2)|(B1 & [(B2 & B3)|(B2 & B3)])].
        - left. exists e. now split.
        - right. split; [exact B1|]. left. split; [lia|exact B3].
        - right. split; [exact B1|]. right. split; [lia|exact B3]. }
      pose proof (autoconvg_loop_S n i fg fd s) as E.
      rewrite St, U in E. cbv zeta in E.
      destruct (0 <? i)%nat; [|now apply (Rec _ _ _ E)].
      destruct (6 <? i)%nat eqn:I6; [|now apply (Rec _ _ _ E)].
      destruct (MorphACWE.stop_test _ _); [|now apply (Rec _ _ _ E)].
      exists 1, s1. split; [lia|]. right.
      split; [now rewrite steps_S, St|]. right.
      apply Nat.ltb_lt in I6. split; [lia|exact E].
    + exists 1, s1. split; [lia|]. left. exists e.
      rewrite steps_S, St, autoconvg_loop_S, St. now split.
Qed.

(** C6: [autoconvg] performs at most 200 calls of [step].  It ends in one
    of three ways: a call of [step] raised and the exception is passed on;
    the sliding-window test stopped the loop early (after at least 8 calls)
    and this is reported on the console; or all 200 calls were made, in
    which case it returns normally, without an error. *)
Theorem autoconvg_bounded (s : MorphACWE.t * world) :
  exists k s', k <= 200 /\
    ((exists e, MorphACWE.run (Z.of_nat k) s = (Raise e, s') /\
                MorphACWE.autoconvg s = (Raise e, s')) \/
     (MorphACWE.run (Z.of_nat k) s = (Ok tt, s') /\
      ((k = 200 /\ MorphACWE.autoconvg s = (Ok tt, s')) \/
       (7 < k /\ MorphACWE.autoconvg s = report_convergence s')))).
Proof.
  destruct (autoconvg_loop_bounded MorphACWE.iterations 0
              (repeat 0%float MorphACWE.iterations)
              (repeat 0%float MorphACWE.iterations) s) as (k & s' & Hk & B).
  exists k, s'. split; [exact Hk|]. rewrite run_steps. exact B.
Qed.

(** C2 on the strip image.  After the 8th step (index 7) the foreground
    counts are 315, 320, ..., 350: the last 6 differences sum to 30, which is
    below 10% of 350, so the rule as designed stops there.  The code sums
    only 5 differences, leaving out the latest (25), and compares against
    [20 | True = 21]: it goes on, and stops after 15 steps at the count 375. *)
Theorem autoconvg_strip :
  foreground_trace 8 strip_start
  = [315; 320; 325; 330; 335; 340; 345; 350]%float /\
  claimed_stop (foreground_trace 8 strip_start) 7 = true /\
  MorphACWE.stop_test 25 350 = false /\
  fst (steps 15 strip_start) = Ok tt /\
  MorphACWE.autoconvg strip_start = report_convergence (snd (steps 15 strip_start)) /\
  foreground_trace 1 (snd (steps 14 strip_start)) = [375%float].
Proof.
  split; [vm_compute; reflexivity|].
  split; [vm_compute; reflexivity|].
  split; [vm_compute; reflexivity|].
  split; [vm_compute; reflexivity|].
  split; vm_compute; reflexivity.
Qed.

(** ** soma_detect and the file system *)

Lemma silent_ret {A : Type} (a : A) : silent (ret a).
Proof. intro w. reflexivity. Qed.

Lemma silent_lift {A : Type} (r : result A) : silent (lift r).
Proof. intro w. reflexivity. Qed.

Lemma silent_bind {A B : Type} (c : M world A) (k : A -> M world B) :
  silent c -> (forall a, silent (k a)) -> silent (bind c k).
Proof.
  intros Hc Hk w. unfold bind. specialize (Hc w).
  destruct (c w) as [[a|e] w1]; cbn in *; [|exact Hc].
  now rewrite Hk.
Qed.

Lemma silent_for_each {A : Type} (l : list A) (body : A -> M world unit) :
  (forall x, silent (body x)) -> silent (for_each l body).
Proof.
  intro H. induction l as [|x l IH]; cbn [for_each].
  - apply silent_ret.
  - apply silent_bind; auto.
Qed.

Lemma silent_ensure_aux (n : nat) (sh : list nat) : silent (ensure_aux n sh).
Proof. intro w. unfold ensure_aux. destruct (shape_eqb _ _); reflexivity. Qed.

Lemma silent_aux_setitem (i : nat) (b : ndarray bool) : silent (aux_setitem i b).
Proof. intro w. unfold aux_setitem. destruct (set_nth _ _ _); reflexivity. Qed.

Lemma silent_morph op red (u : ndarray float) : silent (morph op red u).
Proof.
  unfold morph. apply silent_bind; [apply silent_lift|]. intro P.
  apply silent_bind; [apply silent_ensure_aux|]. intros _.
  apply silent_bind.
  - apply silent_for_each. intro i. unfold fill_body.
    apply silent_bind; [apply silent_lift|]. intro s.
    apply silent_bind; [apply silent_lift|]. intro e. apply silent_aux_setitem.
  - intros _ w. reflexivity.
Qed.

Lemma silent_call (f : curv_fn) (u : ndarray float) : silent (call f u).
Proof.
  destruct f; cbn [call]; rewrite SI_morph, IS_morph;
    apply silent_bind; auto using silent_morph.
Qed.

Lemma silent_curvop (u : ndarray float) : silent (curvop u).
Proof.
  intro w. destruct (curvop_funcs w) as [|f q] eqn:Q.
  - now rewrite (curvop_exhausted u w Q).
  - rewrite (curvop_next u w f q Q). now rewrite silent_call.
Qed.

Lemma silent_smooth (n : nat) : forall u, silent (smooth n u).
Proof.
  induction n as [|n IH]; intro u; cbn [smooth].
  - apply silent_ret.
  - apply silent_bind; auto using silent_curvop.
Qed.

Lemma extends_refl (w : world) : extends w w.
Proof. exists []. now rewrite app_nil_r. Qed.

Lemma extends_trans (w1 w2 w3 : world) :
  extends w1 w2 -> extends w2 w3 -> extends w1 w3.
Proof.
  intros [l1 H1] [l2 H2]. exists (l1 ++ l2). now rewrite H2, H1, app_assoc.
Qed.

Lemma extends_eq (w w' : world) : events w' = events w -> extends w w'.
Proof. intro H. exists []. now rewrite app_nil_r. Qed.

Lemma extends_In (e : event) (w w' : world) :
  extends w w' -> In e (events w) -> In e (events w').
Proof. intros [l H] Hi. rewrite H. apply in_or_app. now left. Qed.

Lemma grows_step : grows MorphACWE.step.
Proof.
  intros [a w]. cbn [snd]. apply extends_eq.
  destruct (MorphACWE._u a) as [u|] eqn:U.
  - rewrite (acwe_step_unfold a u w U).
    destruct (MorphACWE.evolve a u) as [res|e]; [|reflexivity].
    pose proof (silent_smooth (Z.to_nat (MorphACWE.smoothing a)) res w) as H.
    destruct (smooth _ res w) as [[r|e] w']; exact H.
  - now rewrite (acwe_step_unset a w U).
Qed.

Lemma grows_bind {T A B : Type} (c : M (T * world) A) (k : A -> M (T * world) B) :
  grows c -> (forall a, grows (k a)) -> grows (bind c k).
Proof.
  intros Hc Hk s. unfold bind. specialize (Hc s).
  destruct (c s) as [[a|e] s1]; cbn [snd] in *; [|exact Hc].
  eapply extends_trans; [exact Hc|apply Hk].
Qed.

Lemma grows_for_each {T A : Type} (l : list A) (body : A -> M (T * world) unit) :
  (forall x, grows (body x)) -> grows (for_each l body).
Proof.
  intro H. induction l as [|x l IH]; cbn [for_each].
  - intro s. apply extends_refl.
  - apply grows_bind; auto.
Qed.

Lemma grows_report : grows report_convergence.
Proof. intros [a w]. cbn. now eexists. Qed.

Lemma grows_autoconvg_loop (n : nat) :
  forall i fg fd, grows (MorphACWE.autoconvg_loop n i fg fd).
Proof.
  induction n as [|n IH]; intros i fg fd s.
  - apply extends_refl.
  - rewrite autoconvg_loop_S. pose proof (grows_step s) as G.
    destruct (MorphACWE.step s) as [[[]|e] s1]; [|exact G].
    destruct (MorphACWE._u (fst s1)); [|exact G]. cbv zeta.
    destruct (0 <? i)%nat; [|eapply extends_trans; [exact G|apply IH]].
    destruct (6 <? i)%nat; [|eapply extends_trans; [exact G|apply IH]].
    destruct (MorphACWE.stop_test _ _);
      eapply extends_trans; try exact G; [apply grows_report|apply IH].
Qed.

Lemma grows_set_levelset (u : ndarray float) : grows (MorphACWE.set_levelset u).
Proof.
  intros [a w]. unfold MorphACWE.set_levelset. destruct (shape u); apply extends_refl.
Qed.

Lemma with_object_extends {T A : Type} (o : T) (c : M (T * world) A) (w : world) :
  grows c -> extends w (snd (with_object o c w)).
Proof.
  intro H. unfold with_object. specialize (H (o, w)).
  destruct (c (o, w)) as [[a|e] [o' w']]; exact H.
Qed.

(** Inversion of a successful [bind]. *)
Lemma bind_ok {S A B : Type} (c : M S A) (k : A -> M S B) (s s' : S) (b : B) :
  bind c k s = (Ok b, s') ->
  exists a s1, c s = (Ok a, s1) /\ k a s1 = (Ok b, s').
Proof.
  unfold bind. destruct (c s) as [[a|e] s1]; [|discriminate].
  intro H. now exists a, s1.
Qed.

Lemma lift_ok {S A : Type} (r : result A) (s s' : S) (a : A) :
  lift r s = (Ok a, s') -> s' = s.
Proof. unfold lift. now intros [= _ ->]. Qed.

Lemma print_ok (args : list pyval) (w w' : world) (x : unit) :
  print args w = (Ok x, w') -> extends w w'.
Proof. unfold print, emit. intros [= _ <-]. cbn. now eexists. Qed.

Lemma writetiff3d_ok (path : string) (img : ndarray float) (w w' : world) (x : unit) :
  writetiff3d path img w = (Ok x, w') -> In (WriteTiff3d path img) (events w').
Proof.
  unfold writetiff3d, emit. intros [= _ <-]. cbn. apply in_or_app. right. now left.
Qed.

Lemma grows_evolution (u0 : ndarray float) (iterations : Z) :
  grows (bind (MorphACWE.set_levelset u0) (fun _ =>
           if (iterations =? -1)%Z then MorphACWE.autoconvg
           else for_each (range iterations) (fun _ => MorphACWE.step))).
Proof.
  apply grows_bind; [apply grows_set_levelset|]. intros _.
  destruct (iterations =? -1)%Z.
  - apply grows_autoconvg_loop.
  - apply grows_for_each. intros _. apply grows_step.
Qed.

(** C3 fails on the code: whenever [soma_detect] returns a mask, it has
    written the cropped sub-volume to the fixed path
    [/home/donghao/Desktop/zebrafishlarveRGC/2_somabox.tif] on the way. *)
Theorem soma_detect_writes_file
    (img : ndarray float) (somapos : list Z) (somaradius : float) (smoothing : Z)
    (lambda1 lambda2 : float) (soma : bool) (iterations : Z)
    (w w' : world) (mask : ndarray Z) :
  soma_detect img somapos somaradius smoothing lambda1 lambda2 soma iterations w
  = (Ok mask, w') ->
  exists somaimg, In (WriteTiff3d somabox_path somaimg) (events w').
Proof.
  intro H. unfold soma_detect in H.
  repeat (cbv zeta in H; apply bind_ok in H; destruct H as (? & ? & ? & H)).
  match goal with
  | W : writetiff3d _ ?c ?w1 = (Ok _, ?w2) |- _ =>
      exists c; apply writetiff3d_ok in W; apply (extends_In _ w2 w'); [|exact W]
  end.
  repeat match goal with
         | L : lift _ _ = (Ok _, _) |- _ => apply lift_ok in L; subst
         end.
  repeat match goal with
         | P : print _ _ = (Ok _, _) |- _ => apply print_ok in P
         end.
  match goal with
  | O : with_object ?o ?c ?w1 = (Ok _, ?w2) |- _ =>
      pose proof (with_object_extends o c w1 (grows_evolution _ _)) as G;
      rewrite O in G; cbn [snd] in G
  end.
  assert (E : forall w1, extends w1 w' -> extends w1 w') by auto.
  match goal with
  | F : (match ?m with Some _ => _ | None => _ end) ?w1 = (Ok mask, w') |- _ =>
      destruct m; [|discriminate];
      apply bind_ok in F; destruct F as (? & ? & L & F);
      apply lift_ok in L; subst; injection F as _ <-
  end.
  eapply extends_trans; [eassumption|exact G].
Qed.

Lemma soma_detect_writes_file_witness :
  soma_detect soma_img [3; 3; 3]%Z 1 1 1 1 false 1 initial_world
  = (Ok (value (fst (soma_detect soma_img [3; 3; 3]%Z 1 1 1 1 false 1 initial_world))
           (NDArray [] [])),
     snd (soma_detect soma_img [3; 3; 3]%Z 1 1 1 1 false 1 initial_world)) /\
  exists somaimg,
    In (WriteTiff3d somabox_path somaimg)
      (events (snd (soma_detect soma_img [3; 3; 3]%Z 1 1 1 1 false 1 initial_world))).
Proof.
  assert (H : soma_detect soma_img [3; 3; 3]%Z 1 1 1 1 false 1 initial_world
              = (Ok (value (fst (soma_detect soma_img [3; 3; 3]%Z 1 1 1 1 false 1
                                   initial_world)) (NDArray [] [])),
                 snd (soma_detect soma_img [3; 3; 3]%Z 1 1 1 1 false 1 initial_world)))
    by (vm_compute; reflexivity).
  split; [exact H|].
  exact (soma_detect_writes_file soma_img [3; 3; 3]%Z 1 1 1 1 false 1
           initial_world _ _ H).
Defined.

(** * Further properties *)

(** ** Multi-indices and flat positions *)

Lemma flat_map_block {B : Type} (f : nat -> list B) (L : nat) (d : B) :
  (forall i, length (f i) = L) ->
  forall n a i r, i < n -> r < L ->
    nth (i * L + r) (flat_map f (seq a n)) d = nth r (f (a + i)) d.
Proof.
  intros HL. induction n as [|n IH]; intros a i r Hi Hr; [lia|].
  cbn [seq flat_map]. destruct i as [|i].
  - cbn [Nat.mul Nat.add]. rewrite app_nth1 by (rewrite HL; lia).
    now rewrite Nat.add_0_r.
  - rewrite app_nth2 by (rewrite HL; cbn; lia).
    rewrite HL. replace (S i * L + r - L) with (i * L + r) by (cbn; lia).
    rewrite IH by lia. f_equal. f_equal. lia.
Qed.

Lemma split_position (L p n : nat) :
  p < n * L -> exists i r, i < n /\ r < L /\ p = i * L + r.
Proof.
  intro H. assert (L <> 0) by (intro; subst; lia).
  exists (p / L), (p mod L). split; [|split].
  - apply Nat.Div0.div_lt_upper_bound. lia.
  - now apply Nat.mod_upper_bound.
  - rewrite (Nat.div_mod_eq p L) at 1. lia.
Qed.

Lemma indices_ravel (sh : list nat) :
  forall p, p < size sh -> ravel sh (nth p (indices sh) []) = Some p.
Proof.
  induction sh as [|n sh IH]; intros p Hp.
  - cbn in *. now replace p with 0 by lia.
  - cbn [size] in Hp. destruct (split_position (size sh) p n Hp) as (i & r & Hi & Hr & ->).
    cbn [indices].
    rewrite (flat_map_block (fun i => map (cons (Z.of_nat i)) (indices sh)) (size sh) []);
      [|intro; now rewrite length_map, indices_length|exact Hi|exact Hr].
    cbn [Nat.add].
    rewrite (nth_indep _ [] (Z.of_nat i :: [])) by (now rewrite length_map, indices_length).
    change (Z.of_nat i :: []) with (cons (Z.of_nat i) []).
    rewrite map_nth. cbn [ravel].
    replace ((0 <=? Z.of_nat i)%Z && (Z.of_nat i <? Z.of_nat n)%Z) with true
      by (symmetry; apply andb_true_iff; split; [apply Z.leb_le|apply Z.ltb_lt]; lia).
    rewrite (IH r Hr), Nat2Z.id. reflexivity.
Qed.

Lemma indices_rank (sh : list nat) (x : list Z) :
  In x (indices sh) -> length x = length sh.
Proof.
  revert x. induction sh as [|n sh IH]; intros x H.
  - cbn in H. destruct H as [<-|[]]. reflexivity.
  - cbn [indices] in H. apply in_flat_map in H. destruct H as (i & _ & H).
    apply in_map_iff in H. destruct H as (y & <- & Hy). cbn. f_equal. auto.
Qed.

(** On a well-formed array the element at the [p]-th multi-index is the
    [p]-th element. *)
Lemma item_at_position {A : Type} (a : ndarray A) (p : nat) :
  wf a -> p < size (shape a) ->
  item a (nth p (indices (shape a)) []) = nth_error (elems a) p.
Proof.
  intros _ Hp. unfold item. now rewrite (indices_ravel (shape a) p Hp).
Qed.

(** ** SI shrinks, IS grows *)

Lemma P2_centred : Forall (centred 2) _P2.
Proof.
  unfold _P2. repeat apply Forall_cons; try apply Forall_nil; unfold centred.
  all: vm_compute; tauto.
Qed.

Lemma P3_centred : Forall (centred 3) _P3.
Proof.
  unfold _P3. repeat apply Forall_cons; try apply Forall_nil; unfold centred.
  all: vm_compute; tauto.
Qed.

Lemma add_zero_offset (x : list Z) :
  zip_with Z.add x (repeat 0%Z (length x)) = x.
Proof. induction x as [|a x IH]; cbn; [reflexivity|]. now rewrite IH, Z.add_0_r. Qed.

Lemma sub_zero_offset (x : list Z) :
  zip_with Z.sub x (repeat 0%Z (length x)) = x.
Proof. induction x as [|a x IH]; cbn; [reflexivity|]. now rewrite IH, Z.sub_0_r. Qed.

Lemma nth_indices_rank (sh : list nat) (p : nat) :
  p < size sh -> length (nth p (indices sh) []) = length sh.
Proof.
  intro H. apply indices_rank. apply nth_In. now rewrite indices_length.
Qed.

Lemma truth_at_position (u : ndarray float) (p : nat) :
  wf u -> p < size (shape u) ->
  ndimage.truth u (nth p (indices (shape u)) []) = F.nonzero (nth p (elems u) 0%float).
Proof.
  intros W Hp. unfold ndimage.truth. rewrite (item_at_position u p W Hp).
  unfold wf in W. rewrite (nth_error_nth' _ 0%float) by lia. reflexivity.
Qed.

Lemma tabulate_nth {A : Type} (sh : list nat) (f : list Z -> A) (p : nat) (d : A) :
  p < size sh -> nth p (elems (tabulate sh f)) d = f (nth p (indices sh) []).
Proof.
  intro H. unfold tabulate. cbn [elems].
  rewrite (nth_indep _ d (f [])) by now rewrite length_map, indices_length.
  apply map_nth.
Qed.

Lemma eroded_below (u s : ndarray float) (p : nat) :
  wf u -> p < size (shape u) -> centred (ndim u) s ->
  nth p (elems (eroded u s)) false = true ->
  F.nonzero (nth p (elems u) 0%float) = true.
Proof.
  intros W Hp C. unfold eroded. rewrite tabulate_nth by exact Hp.
  intro H. rewrite forallb_forall in H. specialize (H _ C).
  unfold ndim in H. rewrite <- (nth_indices_rank (shape u) p Hp) in H.
  rewrite add_zero_offset in H. now rewrite <- truth_at_position.
Qed.

Lemma dilated_above (u s : ndarray float) (p : nat) :
  wf u -> p < size (shape u) -> centred (ndim u) s ->
  F.nonzero (nth p (elems u) 0%float) = true ->
  nth p (elems (dilated u s)) false = true.
Proof.
  intros W Hp C H. unfold dilated. rewrite tabulate_nth by exact Hp.
  apply existsb_exists. exists (repeat 0%Z (ndim u)). split; [exact C|].
  unfold ndim. rewrite <- (nth_indices_rank (shape u) p Hp).
  rewrite sub_zero_offset. now rewrite truth_at_position.
Qed.

Lemma of_bool_one (b : bool) : F.of_bool b = 1%float -> b = true.
Proof.
  destruct b; [reflexivity|]. intro H. apply (f_equal Prim2SF) in H.
  vm_compute in H. discriminate.
Qed.

(** The families of rank 2 and 3 with what the proofs need of them. *)
Lemma family_cases (u : ndarray float) :
  ndim u = 2 \/ ndim u = 3 ->
  exists P, select_P u = Ok P /\ P <> [] /\
            Forall (fun s : ndarray float => ndim s = ndim u) P /\
            Forall (centred (ndim u)) P.
Proof.
  intros [E|E]; destruct (select_P_cases u) as [[E2 S]|[[E3 S]|(N2 & N3 & _)]];
    try congruence; try lia.
  - exists _P2. rewrite E. repeat split; auto using P2_ndim, P2_centred. discriminate.
  - exists _P3. rewrite E. repeat split; auto using P3_ndim, P3_centred. discriminate.
Qed.

Lemma existsb_id_map {A : Type} (g : A -> bool) (l : list A) :
  existsb (fun b : bool => b) (map g l) = existsb g l.
Proof. induction l as [|x l IH]; cbn; congruence. Qed.

Lemma forallb_id_map {A : Type} (g : A -> bool) (l : list A) :
  forallb (fun b : bool => b) (map g l) = forallb g l.
Proof. induction l as [|x l IH]; cbn; congruence. Qed.

Lemma SI_value (u : ndarray float) (w : world) (P : list (ndarray float)) :
  aux_ok w -> select_P u = Ok P -> P <> [] ->
  Forall (fun s : ndarray float => ndim s = ndim u) P ->
  exists r w', SI u w = (Ok r, w') /\ aux_ok w' /\
    curvop_funcs w' = curvop_funcs w /\
    shape r = shape u /\ length (elems r) = size (shape u) /\
    forall p, p < size (shape u) ->
      nth p (elems r) 0%float
      = F.of_bool (existsb (fun s => nth p (elems (eroded u s)) false) P).
Proof.
  intros Hw HP HN HF.
  destruct (reduce0_extremal F.maximum u (eroded u) P) as (r & Hr & X1 & X2 & X3);
    [intro; apply tabulate_length|exact HN|].
  exists r. eexists. rewrite SI_morph.
  rewrite (morph_run _ _ u w P _ Hw HP (erosion_ok u (ndim u) P eq_refl HF)), Hr.
  split; [reflexivity|]. split.
  { apply set_aux_ok; unfold as_rows; rewrite !length_map; intro E;
      destruct (select_P_cases u) as [[E2 S]|[[E3 S]|(N2 & N3 & S)]];
      rewrite S in HP; inversion HP; subst; try reflexivity;
      unfold ndim in *; congruence. }
  split; [reflexivity|]. split; [exact X1|]. split; [exact X2|].
  intros p Hp. rewrite (X3 p Hp), map_map.
  rewrite <- (map_map (fun s => nth p (elems (eroded u s)) false) F.of_bool).
  rewrite reduce_max_is_or by (destruct P; [congruence|discriminate]).
  now rewrite existsb_id_map.
Qed.

Lemma IS_value (u : ndarray float) (w : world) (P : list (ndarray float)) :
  aux_ok w -> select_P u = Ok P -> P <> [] ->
  Forall (fun s : ndarray float => ndim s = ndim u) P ->
  exists r w', IS u w = (Ok r, w') /\ aux_ok w' /\
    curvop_funcs w' = curvop_funcs w /\
    shape r = shape u /\ length (elems r) = size (shape u) /\
    forall p, p < size (shape u) ->
      nth p (elems r) 0%float
      = F.of_bool (forallb (fun s => nth p (elems (dilated u s)) false) P).
Proof.
  intros Hw HP HN HF.
  destruct (reduce0_extremal F.minimum u (dilated u) P) as (r & Hr & X1 & X2 & X3);
    [intro; apply tabulate_length|exact HN|].
  exists r. eexists. rewrite IS_morph.
  rewrite (morph_run _ _ u w P _ Hw HP (dilation_ok u (ndim u) P eq_refl HF)), Hr.
  split; [reflexivity|]. split.
  { apply set_aux_ok; unfold as_rows; rewrite !length_map; intro E;
      destruct (select_P_cases u) as [[E2 S]|[[E3 S]|(N2 & N3 & S)]];
      rewrite S in HP; inversion HP; subst; try reflexivity;
      unfold ndim in *; congruence. }
  split; [reflexivity|]. split; [exact X1|]. split; [exact X2|].
  intros p Hp. rewrite (X3 p Hp), map_map.
  rewrite <- (map_map (fun s => nth p (elems (dilated u s)) false) F.of_bool).
  rewrite reduce_min_is_and by (destruct P; [congruence|discriminate]).
  now rewrite forallb_id_map.
Qed.

(** X1: on an array of rank 2 or 3, SI never switches a voxel on and IS
    never switches one off: where [SI(u)] is 1 the input is non-zero, and
    where the input is non-zero [IS(u)] is 1.  Every structuring element of
    both families contains its centre. *)
Theorem SI_below_IS_above (u : ndarray float) (w : world) :
  wf u -> aux_ok w -> ndim u = 2 \/ ndim u = 3 ->
  exists rs ri ws wi,
    SI u w = (Ok rs, ws) /\ IS u w = (Ok ri, wi) /\
    forall p, p < size (shape u) ->
      (nth p (elems rs) 0%float = 1%float ->
       F.nonzero (nth p (elems u) 0%float) = true) /\
      (F.nonzero (nth p (elems u) 0%float) = true ->
       nth p (elems ri) 0%float = 1%float).
Proof.
  intros W Hw Hn.
  destruct (family_cases u Hn) as (P & HP & HN & HF & HC).
  destruct (SI_value u w P Hw HP HN HF) as (rs & ws & Es & _ & _ & _ & _ & Vs).
  destruct (IS_value u w P Hw HP HN HF) as (ri & wi & Ei & _ & _ & _ & _ & Vi).
  exists rs, ri, ws, wi. split; [exact Es|]. split; [exact Ei|].
  intros p Hp. rewrite (Vs p Hp), (Vi p Hp). split.
  - intro H. apply of_bool_one in H. apply existsb_exists in H.
    destruct H as (s & Hs & H). rewrite Forall_forall in HC.
    exact (eroded_below u s p W Hp (HC s Hs) H).
  - intro H. replace (forallb _ P) with true; [reflexivity|].
    symmetry. apply forallb_forall. intros s Hs. rewrite Forall_forall in HC.
    exact (dilated_above u s p W Hp (HC s Hs) H).
Qed.

Lemma SI_below_IS_above_witness :
  wf blob_seed /\ aux_ok initial_world /\ (ndim blob_seed = 2 \/ ndim blob_seed = 3) /\
  exists rs ri ws wi,
    SI blob_seed initial_world = (Ok rs, ws) /\
    IS blob_seed initial_world = (Ok ri, wi) /\
    forall p, p < size (shape blob_seed) ->
      (nth p (elems rs) 0%float = 1%float ->
       F.nonzero (nth p (elems blob_seed) 0%float) = true) /\
      (F.nonzero (nth p (elems blob_seed) 0%float) = true ->
       nth p (elems ri) 0%float = 1%float).
Proof.
  assert (H1 : wf blob_seed) by reflexivity.
  assert (H2 : aux_ok initial_world) by (split; simpl; intro; discriminate).
  assert (H3 : ndim blob_seed = 2 \/ ndim blob_seed = 3) by (left; reflexivity).
  split; [exact H1|]. split; [exact H2|]. split; [exact H3|].
  exact (SI_below_IS_above blob_seed initial_world H1 H2 H3).
Defined.

(** ** The empty contour *)

Lemma truth_zeros (sh : list nat) (x : list Z) :
  ndimage.truth (np.zeros sh) x = false.
Proof.
  unfold ndimage.truth, item, np.zeros. cbn [shape elems].
  destruct (ravel sh x) as [p|]; [|reflexivity].
  destruct (nth_error (repeat 0%float (size sh)) p) as [v|] eqn:E; [|reflexivity].
  apply nth_error_In, repeat_spec in E. now subst.
Qed.

Lemma eroded_zeros (sh : list nat) (s : ndarray float) (p : nat) :
  centred (length sh) s ->
  nth p (elems (eroded (np.zeros sh) s)) false = false.
Proof.
  intro C. unfold eroded. cbn [shape np.zeros].
  destruct (Nat.lt_ge_cases p (size sh)) as [Hp|Hp].
  - rewrite tabulate_nth by exact Hp.
    apply not_true_is_false. intro H. rewrite forallb_forall in H.
    specialize (H _ C). now rewrite truth_zeros in H.
  - apply nth_overflow. now rewrite tabulate_length.
Qed.

Lemma dilated_zeros (sh : list nat) (s : ndarray float) (p : nat) :
  nth p (elems (dilated (np.zeros sh) s)) false = false.
Proof.
  unfold dilated. cbn [shape np.zeros].
  destruct (Nat.lt_ge_cases p (size sh)) as [Hp|Hp].
  - rewrite tabulate_nth by exact Hp.
    apply not_true_is_false. intro H. apply existsb_exists in H.
    destruct H as (o & _ & H). now rewrite truth_zeros in H.
  - apply nth_overflow. now rewrite tabulate_length.
Qed.

Lemma zeros_ext (sh : list nat) (r : ndarray float) :
  shape r = sh -> length (elems r) = size sh ->
  (forall p, p < size sh -> nth p (elems r) 0%float = 0%float) ->
  r = np.zeros sh.
Proof.
  intros Hs Hl Hp. destruct r as [s e]. cbn in *. subst s. unfold np.zeros. f_equal.
  apply (nth_ext _ _ 0%float 0%float); [now rewrite repeat_length|].
  intros p H. rewrite nth_repeat. apply Hp. lia.
Qed.

Lemma SI_zeros (sh : list nat) (w : world) :
  aux_ok w -> length sh = 2 \/ length sh = 3 ->
  exists w', SI (np.zeros sh) w = (Ok (np.zeros sh), w') /\
             aux_ok w' /\ curvop_funcs w' = curvop_funcs w.
Proof.
  intros Hw Hn.
  destruct (family_cases (np.zeros sh) Hn) as (P & HP & HN & HF & HC).
  destruct (SI_value _ w P Hw HP HN HF) as (r & w' & E & A & Q & S & L & V).
  exists w'. split; [|split; assumption]. rewrite E. do 2 f_equal.
  apply zeros_ext; auto. intros p Hp. rewrite (V p Hp).
  replace (existsb _ P) with false; [reflexivity|]. symmetry.
  apply not_true_is_false. intro H. apply existsb_exists in H.
  destruct H as (s & Hs & H). rewrite Forall_forall in HC.
  rewrite (eroded_zeros sh s p (HC s Hs)) in H. discriminate.
Qed.

Lemma IS_zeros (sh : list nat) (w : world) :
  aux_ok w -> length sh = 2 \/ length sh = 3 ->
  exists w', IS (np.zeros sh) w = (Ok (np.zeros sh), w') /\
             aux_ok w' /\ curvop_funcs w' = curvop_funcs w.
Proof.
  intros Hw Hn.
  destruct (family_cases (np.zeros sh) Hn) as (P & HP & HN & HF & HC).
  destruct (IS_value _ w P Hw HP HN HF) as (r & w' & E & A & Q & S & L & V).
  exists w'. split; [|split; assumption]. rewrite E. do 2 f_equal.
  apply zeros_ext; auto. intros p Hp. rewrite (V p Hp).
  destruct P as [|s P]; [congruence|]. cbn [forallb].
  now rewrite dilated_zeros.
Qed.

Lemma call_zeros (f : curv_fn) (sh : list nat) (w : world) :
  aux_ok w -> length sh = 2 \/ length sh = 3 ->
  exists w', call f (np.zeros sh) w = (Ok (np.zeros sh), w') /\
             aux_ok w' /\ curvop_funcs w' = curvop_funcs w.
Proof.
  intros Hw Hn. destruct f; cbn [call]; unfold bind.
  - destruct (IS_zeros sh w Hw Hn) as (w1 & -> & A1 & Q1).
    destruct (SI_zeros sh w1 A1 Hn) as (w2 & -> & A2 & Q2).
    exists w2. split; [reflexivity|]. split; [exact A2|congruence].
  - destruct (SI_zeros sh w Hw Hn) as (w1 & -> & A1 & Q1).
    destruct (IS_zeros sh w1 A1 Hn) as (w2 & -> & A2 & Q2).
    exists w2. split; [reflexivity|]. split; [exact A2|congruence].
Qed.

Lemma smooth_zeros (n : nat) (sh : list nat) :
  length sh = 2 \/ length sh = 3 ->
  forall w, world_ok w ->
  exists w', smooth n (np.zeros sh) w = (Ok (np.zeros sh), w') /\ world_ok w'.
Proof.
  intro Hn. induction n as [|n IH]; intros w [Hw Hq].
  - exists w. now split.
  - cbn [smooth]. unfold bind.
    destruct (curvop_funcs w) as [|f q] eqn:Q; [congruence|].
    rewrite (curvop_next _ w f q Q).
    destruct (call_zeros f sh (set_funcs w (q ++ [f])) Hw Hn) as (w1 & -> & A1 & Q1).
    apply IH. split; [exact A1|]. rewrite Q1. cbn. now destruct q.
Qed.

(** X2: the all-zero array of rank 2 or 3 is a fixed point of SI, of IS and
    of any number of applications of the curvature operator. *)
Theorem zeros_fixed_point (sh : list nat) (w : world) (n : nat) :
  world_ok w -> length sh = 2 \/ length sh = 3 ->
  (exists w1, SI (np.zeros sh) w = (Ok (np.zeros sh), w1)) /\
  (exists w2, IS (np.zeros sh) w = (Ok (np.zeros sh), w2)) /\
  (exists w3, smooth n (np.zeros sh) w = (Ok (np.zeros sh), w3) /\ world_ok w3).
Proof.
  intros Hw Hn. split; [|split].
  - destruct (SI_zeros sh w (proj1 Hw) Hn) as (w1 & E & _). now exists w1.
  - destruct (IS_zeros sh w (proj1 Hw) Hn) as (w1 & E & _). now exists w1.
  - exact (smooth_zeros n sh Hn w Hw).
Qed.

(** With an empty partition the region-competition update returns the level
    set unchanged. *)
Lemma evolve_empty_partition (self : MorphACWE.t) (u : ndarray float) :
  wf u -> wf (MorphACWE.data self) ->
  shape (MorphACWE.data self) = shape u ->
  2 <= ndim u -> gradable (shape u) ->
  np.count (np.gt_scalar u 0) = 0 \/ np.count (np.le_scalar u 0) = 0 ->
  MorphACWE.evolve self u = Ok u.
Proof.
  intros Wu Wd Hs Hn Hg He.
  rewrite (acwe_evolve_ok self u Hs Hg). f_equal.
  set (dres := map (np.gradient_axis u) (seq 0 (ndim u))).
  destruct (abs_gradient_sum_spec u dres) as (G1 & G2 & G3).
  { unfold dres. rewrite length_map, length_seq. lia. }
  { apply gradient_lengths. }
  apply update_nan.
  - unfold MorphACWE.attachment, amap2. cbn [elems].
    rewrite zip_with_length, G2. unfold wf in *. rewrite Wu, Wd, Hs. lia.
  - apply attachment_nan.
    destruct He as [E|E]; [right|left]; now apply empty_region_mean.
Qed.

Lemma zeros_inside_empty (sh : list nat) :
  np.count (np.gt_scalar (np.zeros sh) 0) = 0.
Proof.
  unfold np.count, np.gt_scalar, amap, np.zeros. cbn [elems].
  induction (size sh) as [|k IH]; [reflexivity|]. cbn. exact IH.
Qed.

Lemma acwe_same (self : MorphACWE.t) (u : ndarray float) :
  MorphACWE._u self = Some u -> MorphACWE.set_u self (Some u) = self.
Proof. destruct self. cbn. now intros ->. Qed.

Lemma step_zeros (self : MorphACWE.t) (sh : list nat) (w : world) :
  MorphACWE._u self = Some (np.zeros sh) ->
  wf (MorphACWE.data self) -> shape (MorphACWE.data self) = sh ->
  length sh = 2 \/ length sh = 3 -> gradable sh -> world_ok w ->
  exists w', MorphACWE.step (self, w) = (Ok tt, (self, w')) /\ world_ok w'.
Proof.
  intros Hu Wd Hs Hn Hg Hw.
  rewrite (acwe_step_unfold self _ w Hu).
  rewrite (evolve_empty_partition self (np.zeros sh)); auto.
  - destruct (smooth_zeros (Z.to_nat (MorphACWE.smoothing self)) sh Hn w Hw)
      as (w' & -> & Hw').
    exists w'. now rewrite (acwe_same self _ Hu).
  - unfold wf. apply zeros_length.
  - unfold ndim. cbn. lia.
  - left. apply zeros_inside_empty.
Qed.

(** X3: an empty contour stays empty.  On an all-zero level set (volume
    and level set of one shape, rank 2 or 3, every axis at least 2 long)
    every [step] succeeds and leaves the evolver exactly as it was, so
    [run(n)] returns normally with the level set still all zero. *)
Theorem empty_contour_stays_empty
    (self : MorphACWE.t) (sh : list nat) (w : world) (n : Z) :
  MorphACWE._u self = Some (np.zeros sh) ->
  wf (MorphACWE.data self) -> shape (MorphACWE.data self) = sh ->
  length sh = 2 \/ length sh = 3 -> gradable sh -> world_ok w ->
  exists w', MorphACWE.run n (self, w) = (Ok tt, (self, w')) /\ world_ok w'.
Proof.
  intros Hu Wd Hs Hn Hg. unfold MorphACWE.run, range. revert w.
  generalize 0 as a. induction (Z.to_nat n) as [|k IH]; intros a w Hw.
  - exists w. now split.
  - cbn [seq for_each]. unfold bind.
    destruct (step_zeros self sh w Hu Wd Hs Hn Hg Hw) as (w1 & -> & Hw1).
    apply IH. exact Hw1.
Qed.

Lemma zeros_fixed_point_witness :
  world_ok initial_world /\ (length [4; 5] = 2 \/ length [4; 5] = 3) /\
  (exists w1, SI (np.zeros [4; 5]) initial_world = (Ok (np.zeros [4; 5]), w1)) /\
  (exists w2, IS (np.zeros [4; 5]) initial_world = (Ok (np.zeros [4; 5]), w2)) /\
  (exists w3, smooth 3 (np.zeros [4; 5]) initial_world = (Ok (np.zeros [4; 5]), w3) /\
              world_ok w3).
Proof.
  assert (H1 : world_ok initial_world).
  { split; [split; simpl; intro; discriminate|discriminate]. }
  assert (H2 : length [4; 5] = 2 \/ length [4; 5] = 3) by (left; reflexivity).
  split; [exact H1|]. split; [exact H2|].
  exact (zeros_fixed_point [4; 5] initial_world 3 H1 H2).
Defined.

Lemma empty_contour_stays_empty_witness :
  MorphACWE._u (acwe_blob 1 all_zero) = Some (np.zeros [4; 5]) /\
  wf (MorphACWE.data (acwe_blob 1 all_zero)) /\
  shape (MorphACWE.data (acwe_blob 1 all_zero)) = [4; 5] /\
  (length [4; 5] = 2 \/ length [4; 5] = 3) /\ gradable [4; 5] /\
  world_ok initial_world /\
  exists w', MorphACWE.run 3 (acwe_blob 1 all_zero, initial_world)
             = (Ok tt, (acwe_blob 1 all_zero, w')) /\ world_ok w'.
Proof.
  assert (H1 : MorphACWE._u (acwe_blob 1 all_zero) = Some (np.zeros [4; 5]))
    by reflexivity.
  assert (H2 : wf (MorphACWE.data (acwe_blob 1 all_zero))) by reflexivity.
  assert (H3 : shape (MorphACWE.data (acwe_blob 1 all_zero)) = [4; 5]) by reflexivity.
  assert (H4 : length [4; 5] = 2 \/ length [4; 5] = 3) by (left; reflexivity).
  assert (H5 : gradable [4; 5]) by (unfold gradable; repeat constructor; lia).
  assert (H6 : world_ok initial_world).
  { split; [split; simpl; intro; discriminate|discriminate]. }
  repeat (split; [assumption|]).
  exact (empty_contour_stays_empty (acwe_blob 1 all_zero) [4; 5] initial_world 3
           H1 H2 H3 H4 H5 H6).
Defined.

(** ** The alternation of the curvature operator *)

Lemma call_keeps_funcs (f : curv_fn) (u : ndarray float) (w : world) :
  aux_ok w ->
  curvop_funcs (snd (call f u w)) = curvop_funcs w /\ aux_ok (snd (call f u w)).
Proof.
  intro Hw. destruct (call_spec f u) as [(r & A & _ & R & _ & _ & _ & K)|(_ & _ & R)].
  - rewrite (R w Hw). cbn. split; [reflexivity|apply K].
  - rewrite R. now split.
Qed.

(** X4: the curvature operator alternates with period 2.  With the cycle
    at [f, g], a call applies [f] and leaves the cycle at [g, f]; the next
    call, by whichever evolver, applies [g] and restores [f, g].  The module
    starts at [SIoIS, ISoSI]. *)
Theorem curvop_alternates (f g : curv_fn) (u v : ndarray float) (w : world) :
  aux_ok w -> curvop_funcs w = [f; g] ->
  curvop_funcs initial_world = [SIoIS; ISoSI] /\
  curvop u w = call f u (set_funcs w [g; f]) /\
  curvop_funcs (snd (curvop u w)) = [g; f] /\
  curvop v (snd (curvop u w))
  = call g v (set_funcs (snd (curvop u w)) [f; g]) /\
  curvop_funcs (snd (curvop v (snd (curvop u w)))) = [f; g].
Proof.
  intros Hw Q. split; [reflexivity|].
  assert (E1 : curvop u w = call f u (set_funcs w [g; f]))
    by exact (curvop_next u w f [g] Q).
  assert (Hw1 : aux_ok (set_funcs w [g; f])) by exact Hw.
  destruct (call_keeps_funcs f u _ Hw1) as (Q1 & A1).
  rewrite <- E1 in Q1, A1. cbn in Q1.
  assert (E2 : curvop v (snd (curvop u w))
               = call g v (set_funcs (snd (curvop u w)) [f; g]))
    by exact (curvop_next v _ g [f] Q1).
  assert (Hw2 : aux_ok (set_funcs (snd (curvop u w)) [f; g])) by exact A1.
  destruct (call_keeps_funcs g v _ Hw2) as (Q2 & _).
  rewrite <- E2 in Q2. cbn in Q2.
  repeat split; assumption.
Qed.

Lemma curvop_alternates_witness :
  aux_ok initial_world /\ curvop_funcs initial_world = [SIoIS; ISoSI] /\
  curvop_funcs initial_world = [SIoIS; ISoSI] /\
  curvop blob_seed initial_world
  = call SIoIS blob_seed (set_funcs initial_world [ISoSI; SIoIS]) /\
  curvop_funcs (snd (curvop blob_seed initial_world)) = [ISoSI; SIoIS] /\
  curvop blob_data (snd (curvop blob_seed initial_world))
  = call ISoSI blob_data
      (set_funcs (snd (curvop blob_seed initial_world)) [SIoIS; ISoSI]) /\
  curvop_funcs (snd (curvop blob_data (snd (curvop blob_seed initial_world))))
  = [SIoIS; ISoSI].
Proof.
  assert (H1 : aux_ok initial_world) by (split; simpl; intro; discriminate).
  assert (H2 : curvop_funcs initial_world = [SIoIS; ISoSI]) by reflexivity.
  split; [exact H1|]. split; [exact H2|].
  exact (curvop_alternates SIoIS ISoSI blob_seed blob_data initial_world H1 H2).
Defined.

(** ** A step that fails in the smoothing *)

(** X5: when the smoothing is refused (level set of a rank other than 2 or
    3, smoothing count at least 1) [step] raises the dimensionality
    [ValueError] and leaves the evolver untouched, but the shared cycle of
    the curvature operator has already advanced by one. *)
Theorem step_failed_smoothing
    (self : MorphACWE.t) (u : ndarray float) (w : world)
    (f : curv_fn) (q : list curv_fn) :
  MorphACWE._u self = Some u ->
  shape (MorphACWE.data self) = shape u -> gradable (shape u) ->
  ndim u <> 2 -> ndim u <> 3 ->
  (0 < MorphACWE.smoothing self)%Z ->
  curvop_funcs w = f :: q ->
  MorphACWE.step (self, w)
  = (Raise invalid_dimensions, (self, set_funcs w (q ++ [f]))).
Proof.
  intros Hu Hs Hg N2 N3 Hm Q.
  rewrite (acwe_step_unfold self u w Hu), (acwe_evolve_ok self u Hs Hg).
  set (res := MorphACWE.update u _).
  assert (Sr : shape res = shape u) by apply update_spec.
  destruct (Z.to_nat (MorphACWE.smoothing self)) as [|n] eqn:En; [lia|].
  cbn [smooth]. unfold bind. rewrite (curvop_next res w f q Q).
  destruct (call_spec f res) as [(r & A & Hn & _)|(_ & _ & R)].
  - exfalso. unfold ndim in *. rewrite Sr in Hn. tauto.
  - now rewrite R.
Qed.

Lemma step_failed_smoothing_witness :
  MorphACWE._u line_evolver = Some (NDArray [4] [0; 1; 1; 0]%float) /\
  shape (MorphACWE.data line_evolver) = shape (NDArray [4] [0; 1; 1; 0]%float) /\
  gradable (shape (NDArray [4] [0; 1; 1; 0]%float)) /\
  ndim (NDArray [4] [0; 1; 1; 0]%float) <> 2 /\
  ndim (NDArray [4] [0; 1; 1; 0]%float) <> 3 /\
  (0 < MorphACWE.smoothing line_evolver)%Z /\
  curvop_funcs initial_world = [SIoIS; ISoSI] /\
  MorphACWE.step (line_evolver, initial_world)
  = (Raise invalid_dimensions,
     (line_evolver, set_funcs initial_world ([ISoSI] ++ [SIoIS]))).
Proof.
  assert (H1 : MorphACWE._u line_evolver = Some (NDArray [4] [0; 1; 1; 0]%float))
    by reflexivity.
  assert (H2 : shape (MorphACWE.data line_evolver)
               = shape (NDArray [4] [0; 1; 1; 0]%float)) by reflexivity.
  assert (H3 : gradable (shape (NDArray [4] [0; 1; 1; 0]%float)))
    by (unfold gradable; cbn; repeat constructor; lia).
  assert (H4 : ndim (NDArray [4] [0; 1; 1; 0]%float) <> 2) by (cbn; lia).
  assert (H5 : ndim (NDArray [4] [0; 1; 1; 0]%float) <> 3) by (cbn; lia).
  assert (H6 : (0 < MorphACWE.smoothing line_evolver)%Z) by (cbn; lia).
  assert (H7 : curvop_funcs initial_world = [SIoIS; ISoSI]) by reflexivity.
  repeat (split; [assumption|]).
  exact (step_failed_smoothing line_evolver _ initial_world SIoIS [ISoSI]
           H1 H2 H3 H4 H5 H6 H7).
Defined.

(** ** What a successful step keeps *)

(** X6: a step that returns normally keeps the shape of the level set,
    which is then the shape of the volume, and changes no other attribute of
    the evolver. *)
Theorem step_keeps_shape
    (self self' : MorphACWE.t) (u : ndarray float) (w w' : world) :
  aux_ok w -> MorphACWE._u self = Some u ->
  MorphACWE.step (self, w) = (Ok tt, (self', w')) ->
  exists u',
    MorphACWE._u self' = Some u' /\
    shape u' = shape u /\ shape u' = shape (MorphACWE.data self') /\
    MorphACWE.data self' = MorphACWE.data self /\
    MorphACWE.smoothing self' = MorphACWE.smoothing self /\
    MorphACWE.lambda1 self' = MorphACWE.lambda1 self /\
    MorphACWE.lambda2 self' = MorphACWE.lambda2 self.
Proof.
  intros Hw Hu. rewrite (acwe_step_unfold self u w Hu).
  destruct (MorphACWE.evolve self u) as [res|e] eqn:E; [|discriminate].
  assert (Sh : shape (MorphACWE.data self) = shape u /\ shape res = shape u).
  { revert E. unfold MorphACWE.evolve.
    destruct (shape_eqb _ _) eqn:B; [|discriminate]. cbn [negb].
    apply shape_eqb_true in B.
    destruct (np.gradient u); [|discriminate]. intros [= <-].
    split; [exact B|apply update_spec]. }
  destruct (smooth _ res w) as [[r|e] w1] eqn:S; [|discriminate].
  destruct (smooth_spec _ res w _ w1 Hw S) as (_ & _ & _ & I4 & _).
  destruct (I4 r eq_refl) as (J & _). intros [= <- <-].
  exists r. cbn. repeat split; try reflexivity; destruct Sh; congruence.
Qed.

Lemma step_keeps_shape_witness :
  aux_ok initial_world /\
  MorphACWE._u (acwe_blob 1 blob_seed) = Some blob_seed /\
  MorphACWE.step (acwe_blob 1 blob_seed, initial_world)
  = (Ok tt, snd (MorphACWE.step (acwe_blob 1 blob_seed, initial_world))) /\
  exists u',
    MorphACWE._u (fst (snd (MorphACWE.step (acwe_blob 1 blob_seed, initial_world))))
    = Some u' /\
    shape u' = shape blob_seed /\
    shape u'
    = shape (MorphACWE.data
               (fst (snd (MorphACWE.step (acwe_blob 1 blob_seed, initial_world))))) /\
    MorphACWE.data (fst (snd (MorphACWE.step (acwe_blob 1 blob_seed, initial_world))))
    = MorphACWE.data (acwe_blob 1 blob_seed) /\
    MorphACWE.smoothing
      (fst (snd (MorphACWE.step (acwe_blob 1 blob_seed, initial_world))))
    = MorphACWE.smoothing (acwe_blob 1 blob_seed) /\
    MorphACWE.lambda1
      (fst (snd (MorphACWE.step (acwe_blob 1 blob_seed, initial_world))))
    = MorphACWE.lambda1 (acwe_blob 1 blob_seed) /\
    MorphACWE.lambda2
      (fst (snd (MorphACWE.step (acwe_blob 1 blob_seed, initial_world))))
    = MorphACWE.lambda2 (acwe_blob 1 blob_seed).
Proof.
  assert (H1 : aux_ok initial_world) by (split; simpl; intro; discriminate).
  assert (H2 : MorphACWE._u (acwe_blob 1 blob_seed) = Some blob_seed) by reflexivity.
  assert (H3 : MorphACWE.step (acwe_blob 1 blob_seed, initial_world)
               = (Ok tt, (fst (snd (MorphACWE.step (acwe_blob 1 blob_seed, initial_world))),
                          snd (snd (MorphACWE.step (acwe_blob 1 blob_seed, initial_world))))))
    by (vm_compute; reflexivity).
  split; [exact H1|]. split; [exact H2|].
  split; [vm_compute; reflexivity|].
  exact (step_keeps_shape (acwe_blob 1 blob_seed) _ blob_seed initial_world _ H1 H2 H3).
Defined.

(** ** run *)

Lemma for_each_app {S A : Type} (l1 l2 : list A) (body : A -> M S unit) (s : S) :
  for_each (l1 ++ l2) body s
  = bind (for_each l1 body) (fun _ => for_each l2 body) s.
Proof.
  revert s. induction l1 as [|x l1 IH]; intro s; cbn [app for_each].
  - reflexivity.
  - unfold bind in *. destruct (body x s) as [[[]|e] s1]; [|reflexivity].
    apply IH.
Qed.

Lemma range_add (m n : Z) :
  (0 <= m)%Z -> (0 <= n)%Z ->
  range (m + n) = range m ++ seq (Z.to_nat m) (Z.to_nat n).
Proof.
  intros Hm Hn. unfold range. rewrite Z2Nat.inj_add by assumption.
  apply seq_app.
Qed.

(** X7: [run] composes and does nothing for a non-positive count:
    [run(m + n)] is [run(m)] followed by [run(n)] (not reached when [run(m)]
    raises), and [run(n)] with [n <= 0] changes nothing.  The same holds for
    both evolvers. *)
Theorem run_composes (m n : Z) :
  (0 <= m)%Z -> (0 <= n)%Z ->
  (forall s, MorphACWE.run (m + n) s
             = bind (MorphACWE.run m) (fun _ => MorphACWE.run n) s) /\
  (forall s, MorphGAC.run (m + n) s
             = bind (MorphGAC.run m) (fun _ => MorphGAC.run n) s) /\
  (forall k s, (k <= 0)%Z -> MorphACWE.run k s = (Ok tt, s)) /\
  (forall k s, (k <= 0)%Z -> MorphGAC.run k s = (Ok tt, s)).
Proof.
  intros Hm Hn. split; [|split; [|split]].
  - intro s. unfold MorphACWE.run. rewrite (range_add m n Hm Hn), for_each_app.
    unfold bind. destruct (for_each (range m) _ s) as [[[]|e] s1]; [|reflexivity].
    now rewrite (for_each_const MorphACWE.step (seq (Z.to_nat m) (Z.to_nat n)) (range n))
      by (unfold range; now rewrite !length_seq).
  - intro s. unfold MorphGAC.run. rewrite (range_add m n Hm Hn), for_each_app.
    unfold bind. destruct (for_each (range m) _ s) as [[[]|e] s1]; [|reflexivity].
    now rewrite (for_each_const MorphGAC.step (seq (Z.to_nat m) (Z.to_nat n)) (range n))
      by (unfold range; now rewrite !length_seq).
  - intros k s Hk. unfold MorphACWE.run, range.
    replace (Z.to_nat k) with 0 by lia. reflexivity.
  - intros k s Hk. unfold MorphGAC.run, range.
    replace (Z.to_nat k) with 0 by lia. reflexivity.
Qed.

Lemma run_composes_witness :
  (0 <= 2)%Z /\ (0 <= 3)%Z /\
  (forall s, MorphACWE.run (2 + 3) s
             = bind (MorphACWE.run 2) (fun _ => MorphACWE.run 3) s) /\
  (forall s, MorphGAC.run (2 + 3) s
             = bind (MorphGAC.run 2) (fun _ => MorphGAC.run 3) s) /\
  (forall k s, (k <= 0)%Z -> MorphACWE.run k s = (Ok tt, s)) /\
  (forall k s, (k <= 0)%Z -> MorphGAC.run k s = (Ok tt, s)).
Proof.
  assert (H1 : (0 <= 2)%Z) by lia. assert (H2 : (0 <= 3)%Z) by lia.
  split; [exact H1|]. split; [exact H2|]. exact (run_composes 2 3 H1 H2).
Defined.

(** ** Running an evolver that has no level set *)

(** X8: [run(n)] with [n >= 1] and [autoconvg()] on an evolver whose level
    set was never bound raise the "level set is not set" [ValueError] at
    their first step and change nothing. *)
Theorem run_unset_levelset (a : MorphACWE.t) (w : world) (n : Z) :
  MorphACWE._u a = None -> (0 < n)%Z ->
  MorphACWE.run n (a, w) = (Raise MorphACWE.unset_levelset, (a, w)) /\
  MorphACWE.autoconvg (a, w) = (Raise MorphACWE.unset_levelset, (a, w)).
Proof.
  intros Hu Hn. split.
  - unfold MorphACWE.run, range.
    destruct (Z.to_nat n) as [|k] eqn:E; [lia|].
    cbn [seq for_each]. unfold bind. now rewrite (acwe_step_unset a w Hu).
  - unfold MorphACWE.autoconvg, MorphACWE.iterations.
    now rewrite autoconvg_loop_S, (acwe_step_unset a w Hu).
Qed.

Lemma run_unset_levelset_witness :
  MorphACWE._u (MorphACWE.__init__ blob_data 1 1 1) = None /\ (0 < 5)%Z /\
  MorphACWE.run 5 (MorphACWE.__init__ blob_data 1 1 1, initial_world)
  = (Raise MorphACWE.unset_levelset,
     (MorphACWE.__init__ blob_data 1 1 1, initial_world)) /\
  MorphACWE.autoconvg (MorphACWE.__init__ blob_data 1 1 1, initial_world)
  = (Raise MorphACWE.unset_levelset,
     (MorphACWE.__init__ blob_data 1 1 1, initial_world)).
Proof.
  assert (H1 : MorphACWE._u (MorphACWE.__init__ blob_data 1 1 1) = None) by reflexivity.
  assert (H2 : (0 < 5)%Z) by lia.
  split; [exact H1|]. split; [exact H2|].
  exact (run_unset_levelset (MorphACWE.__init__ blob_data 1 1 1) initial_world 5 H1 H2).
Defined.

(** ** The stopping test of autoconvg *)

Lemma compare_cont_lt_trans (m a b : positive) :
  (a < b)%positive ->
  Pos.compare_cont Eq m a = Lt -> Pos.compare_cont Eq m b = Lt.
Proof.
  intros Hab H. change (Pos.compare m a = Lt) in H. change (Pos.compare m b = Lt).
  apply Pos.compare_lt_iff in H. apply Pos.compare_lt_iff.
  now apply Pos.lt_trans with a.
Qed.

Lemma lt20_lt21 (a : float) : (a <? 20)%float = true -> (a <? 21)%float = true.
Proof.
  rewrite !ltb_spec.
  set (c20 := Prim2SF 20). set (c21 := Prim2SF 21).
  vm_compute in c20, c21. subst c20 c21. unfold SFltb.
  destruct (Prim2SF a) as [s|s| |s m e]; cbn [SFcompare]; try discriminate.
  - destruct s; intro H; exact H.
  - destruct s; intro H; exact H.
  - destruct s; [intro H; exact H|].
    destruct (Z.compare e (-48)); [|intro H; exact H|intro H; exact H].
    destruct (Pos.compare_cont Eq m 5629499534213120) eqn:C; try discriminate.
    intros _.
    assert (L : (5629499534213120 < 5910974510923776)%positive) by reflexivity.
    now rewrite (compare_cont_lt_trans m _ _ L C).
Qed.

(** X9: what the stopping test of [autoconvg] computes, for every sliding
    sum [d] and foreground count [fg]: it holds when [|d| < 20], or when
    [|d| < 21] and [|d| < 0.1*fg].  The relative threshold is consulted only
    for magnitudes from 20 up to 21. *)
Theorem stop_test_spec (d fg : float) :
  MorphACWE.stop_test d fg
  = ((abs d <? 20) || ((abs d <? 21) && (abs d <? 0.1 * fg)))%float.
Proof.
  unfold MorphACWE.stop_test. cbv zeta.
  destruct (abs d <? 0.1 * fg)%float.
  - change (F.of_Z (Z.lor 20 (Z.b2z true))) with 21%float.
    rewrite andb_true_r.
    destruct (abs d <? 20)%float eqn:E; [|reflexivity].
    now rewrite (lt20_lt21 _ E).
  - change (F.of_Z (Z.lor 20 (Z.b2z false))) with 20%float.
    now rewrite andb_false_r, orb_false_r.
Qed.

(** ** The edge evolver *)

Lemma set_u_derived (g : MorphGAC.t) (u : option (ndarray float)) :
  gac_derived g -> gac_derived (MorphGAC.set_u g u).
Proof. intro H. exact H. Qed.

Lemma set_data_derived (d : ndarray float) (g g' : MorphGAC.t) :
  MorphGAC.set_data d g = Ok g' -> gac_derived g'.
Proof.
  unfold MorphGAC.set_data. destruct (np.gradient d) as [dd|e] eqn:G; [|discriminate].
  intro H. injection H as <-. unfold gac_derived; cbn. auto.
Qed.

Lemma gac_step_derived (s : MorphGAC.t * world) :
  gac_derived (fst s) -> gac_derived (fst (snd (MorphGAC.step s))).
Proof.
  intro H. destruct s as [g w]. unfold MorphGAC.step, bind, get. cbn [fst snd].
  destruct (MorphGAC._u g) as [u|]; [|exact H].
  unfold lift. destruct (MorphGAC.evolve g u) as [res|e]; [|exact H].
  unfold globally. cbn [fst snd].
  destruct (smooth _ res w) as [[r|e] w']; cbn; exact H.
Qed.

Lemma for_each_keeps {S A : Type} (P : S -> Prop) (body : A -> M S unit)
    (l : list A) :
  (forall x s, P s -> P (snd (body x s))) ->
  forall s, P s -> P (snd (for_each l body s)).
Proof.
  intro B. induction l as [|x l IH]; intros s H; [exact H|].
  cbn [for_each]. unfold bind. specialize (B x s H).
  destruct (body x s) as [[[]|e] s1]; cbn [snd] in *; [apply IH|]; exact B.
Qed.

Lemma gac_apply_derived (op : gac_op) (s : MorphGAC.t * world) :
  gac_derived (fst s) ->
  (forall d, op = SetData d -> exists dd, np.gradient d = Ok dd) ->
  gac_derived (fst (snd (gac_apply op s))).
Proof.
  intros H D. destruct s as [g w]. destruct op as [u|v|theta|d| |n]; cbn [gac_apply].
  - unfold MorphGAC.set_levelset. destruct (shape u); cbn; exact H.
  - destruct H as (H1 & H2 & H3 & H4). unfold gac_derived; cbn. auto.
  - destruct H as (H1 & H2 & H3 & H4). unfold gac_derived; cbn. auto.
  - unfold set_data_method. cbn [fst snd].
    destruct (MorphGAC.set_data d g) as [g'|e] eqn:E.
    + cbn. exact (set_data_derived _ _ _ E).
    + exfalso. destruct (D d eq_refl) as [dd G].
      unfold MorphGAC.set_data in E. rewrite G in E. discriminate.
  - apply gac_step_derived. exact H.
  - unfold MorphGAC.run.
    apply (for_each_keeps (fun s => gac_derived (fst s)) (fun _ => MorphGAC.step)).
    + intros _ s0 H0. apply gac_step_derived. exact H0.
    + exact H.
Qed.

Lemma gac_apply_ok_data (d : ndarray float) (s s' : MorphGAC.t * world) :
  gac_apply (SetData d) s = (Ok tt, s') -> exists dd, np.gradient d = Ok dd.
Proof.
  cbn [gac_apply]. unfold set_data_method, MorphGAC.set_data.
  destruct (np.gradient d) as [dd|e]; [eauto|discriminate].
Qed.

Lemma session_derived (ops : list gac_op) :
  forall (s : MorphGAC.t * world) (r : result unit) (s' : MorphGAC.t * world),
  gac_derived (fst s) ->
  for_each ops gac_apply s = (r, s') ->
  r = Ok tt \/ (forall d, In (SetData d) ops -> exists dd, np.gradient d = Ok dd) ->
  gac_derived (fst s').
Proof.
  induction ops as [|op ops IH]; intros s r s' H E D.
  - cbn in E. injection E as _ <-. exact H.
  - cbn [for_each] in E. unfold bind in E.
    destruct (gac_apply op s) as [[[]|e] s1] eqn:A.
    + assert (H1 : gac_derived (fst s1)).
      { replace s1 with (snd (gac_apply op s)) by now rewrite A.
        apply gac_apply_derived; [exact H|].
        intros d ->. exact (gac_apply_ok_data _ _ _ A). }
      apply (IH s1 r s' H1 E).
      destruct D as [D|D]; [now left|right].
      intros d I. apply D. now right.
    + injection E as <- <-. destruct D as [D|D]; [discriminate|].
      replace s1 with (snd (gac_apply op s)) by now rewrite A.
      apply gac_apply_derived; [exact H|].
      intros d ->. apply D. now left.
Qed.

(** X10: from construction on, whatever setters, steps and runs are applied
    to an edge evolver, its gradients, both masks and its structuring element
    are those of its current data, threshold and balloon, as long as every
    call returned or every data field assigned was one [np.gradient]
    accepts. *)
Theorem gac_cache_stays_fresh (data : ndarray float) (smoothing : Z)
    (threshold balloon : float) (g : MorphGAC.t) (ops : list gac_op)
    (w : world) (r : result unit) (s' : MorphGAC.t * world) :
  MorphGAC.__init__ data smoothing threshold balloon = Ok g ->
  for_each ops gac_apply (g, w) = (r, s') ->
  r = Ok tt \/ (forall d, In (SetData d) ops -> exists dd, np.gradient d = Ok dd) ->
  gac_derived (fst s').
Proof.
  intros I E D. apply (session_derived ops (g, w) r s'); [|exact E|exact D].
  exact (set_data_derived _ _ _ I).
Qed.

Lemma gac_cache_stays_fresh_witness :
  gac_derived
    (fst (snd (for_each gac_session gac_apply
                 (value (MorphGAC.__init__ blob_data 1 0 1) gac_blank,
                  initial_world)))).
Proof.
  apply (gac_cache_stays_fresh blob_data 1 0 1
           (value (MorphGAC.__init__ blob_data 1 0 1) gac_blank) gac_session
           initial_world
           (fst (for_each gac_session gac_apply
                   (value (MorphGAC.__init__ blob_data 1 0 1) gac_blank,
                    initial_world)))).
  - vm_compute. reflexivity.
  - apply surjective_pairing.
  - left. vm_compute. reflexivity.
Defined.

(** X11: assigning a data field that [np.gradient] refuses raises its error
    and leaves the evolver with the new data beside the gradients and masks
    of the old one: the derived attributes are no longer those of the
    data. *)
Theorem failed_set_data_breaks_cache (d : ndarray float) (e : exn)
    (g : MorphGAC.t) (w : world) :
  np.gradient d = Raise e ->
  exists g',
    gac_apply (SetData d) (g, w) = (Raise e, (g', w)) /\
    MorphGAC._data g' = d /\
    MorphGAC._ddata g' = MorphGAC._ddata g /\
    MorphGAC._threshold_mask g' = MorphGAC._threshold_mask g /\
    MorphGAC._threshold_mask_v g' = MorphGAC._threshold_mask_v g /\
    ~ gac_derived g'.
Proof.
  intro G. cbn [gac_apply]. unfold set_data_method, MorphGAC.set_data.
  cbn [fst snd]. rewrite G. eexists. split; [reflexivity|]. cbn.
  repeat (split; [reflexivity|]).
  intros (H & _). cbn in H. rewrite G in H. discriminate.
Qed.

Lemma failed_set_data_breaks_cache_witness :
  np.gradient (NDArray [1; 3] [1; 2; 3]%float)
  = Raise (ValueError "Shape of array too small to calculate a numerical gradient, at least (edge_order + 1) elements are required.") /\
  exists g',
    gac_apply (SetData (NDArray [1; 3] [1; 2; 3]%float))
      (value (MorphGAC.__init__ blob_data 1 0 1) gac_blank, initial_world)
    = (Raise (ValueError "Shape of array too small to calculate a numerical gradient, at least (edge_order + 1) elements are required."), (g', initial_world)) /\
    MorphGAC._data g' = NDArray [1; 3] [1; 2; 3]%float /\
    MorphGAC._ddata g'
    = MorphGAC._ddata (value (MorphGAC.__init__ blob_data 1 0 1) gac_blank) /\
    MorphGAC._threshold_mask g'
    = MorphGAC._threshold_mask (value (MorphGAC.__init__ blob_data 1 0 1) gac_blank) /\
    MorphGAC._threshold_mask_v g'
    = MorphGAC._threshold_mask_v (value (MorphGAC.__init__ blob_data 1 0 1) gac_blank) /\
    ~ gac_derived g'.
Proof.
  split; [reflexivity|].
  apply (failed_set_data_breaks_cache (NDArray [1; 3] [1; 2; 3]%float)).
  reflexivity.
Defined.

Lemma nan_compares (v : float) :
  is_nan v = true ->
  (0 <? v)%float = false /\ (v <? 0)%float = false /\ (v =? 0)%float = false.
Proof.
  unfold is_nan. rewrite !ltb_spec, !eqb_spec, SF_zero.
  unfold SFltb, SFeqb, SFcompare.
  destruct (Prim2SF v) as [s|s| |s m e]; try destruct s; cbn;
    try discriminate; auto.
  all: rewrite Z.compare_refl, Pos.compare_cont_refl; cbn; discriminate.
Qed.

(** X12: with a balloon of zero the balloon stage hands the level set on
    untouched, and the whole update reads neither mask: an evolver with any
    other masks computes the same level set.  The threshold mask is read by
    no update at all. *)
Theorem balloon_zero_ignores_masks (g : MorphGAC.t) (u : ndarray float) :
  (forall m mv, MorphGAC.evolve (with_masks g m mv) u
                = MorphGAC.evolve (with_masks g (MorphGAC._threshold_mask g) mv) u) /\
  ((MorphGAC._v g =? 0)%float = true ->
   MorphGAC.balloon g u = Ok u /\
   forall m mv, MorphGAC.evolve (with_masks g m mv) u = MorphGAC.evolve g u).
Proof.
  split; [reflexivity|]. intro Z.
  destruct (eq0_not_lt _ Z) as [L G].
  assert (B : forall m mv, MorphGAC.balloon (with_masks g m mv) u = Ok u).
  { intros m mv. unfold MorphGAC.balloon, with_masks. cbn. rewrite G, L, Z.
    reflexivity. }
  assert (B0 : MorphGAC.balloon g u = Ok u).
  { unfold MorphGAC.balloon. rewrite G, L, Z. reflexivity. }
  split; [exact B0|].
  intros m mv. unfold MorphGAC.evolve. rewrite B, B0. reflexivity.
Qed.

Lemma balloon_zero_ignores_masks_witness :
  MorphGAC.balloon (MorphGAC.set_balloon 0 gac_blank) blob_seed = Ok blob_seed /\
  forall m mv,
    MorphGAC.evolve (with_masks (MorphGAC.set_balloon 0 gac_blank) m mv) blob_seed
    = MorphGAC.evolve (MorphGAC.set_balloon 0 gac_blank) blob_seed.
Proof.
  apply (balloon_zero_ignores_masks (MorphGAC.set_balloon 0 gac_blank) blob_seed).
  reflexivity.
Defined.

(** X13: a NaN balloon passes the test [v != 0] with neither [v > 0] nor
    [v < 0]: the step raises UnboundLocalError for [aux] and changes
    neither the evolver nor the globals. *)
Theorem nan_balloon_unbound (g : MorphGAC.t) (u : ndarray float) (w : world) :
  is_nan (MorphGAC._v g) = true ->
  MorphGAC._u g = Some u ->
  MorphGAC.step (g, w) = (Raise UnboundLocalError, (g, w)).
Proof.
  intros N U. destruct (nan_compares _ N) as (G & L & Z).
  unfold MorphGAC.step, bind, get. cbn [fst snd]. rewrite U.
  unfold lift, MorphGAC.evolve, MorphGAC.balloon. rewrite G, L, Z. reflexivity.
Qed.

Lemma nan_balloon_unbound_witness :
  MorphGAC.step
    (MorphGAC.set_u (MorphGAC.set_balloon nan gac_blank) (Some blob_seed),
     initial_world)
  = (Raise UnboundLocalError,
     (MorphGAC.set_u (MorphGAC.set_balloon nan gac_blank) (Some blob_seed),
      initial_world)).
Proof.
  apply (nan_balloon_unbound
           (MorphGAC.set_u (MorphGAC.set_balloon nan gac_blank) (Some blob_seed))
           blob_seed initial_world); reflexivity.
Defined.

(** ** circle_levelset *)

Lemma round_aux_sign (s : bool) (m e : Z) (l : location) :
  match binary_round_aux prec emax s m e l with
  | S754_zero s' | S754_infinity s' | S754_finite s' _ _ => s' = s
  | S754_nan => True
  end.
Proof.
  unfold binary_round_aux.
  destruct (shr_fexp prec emax m e l) as [mrs' e'].
  destruct (shr_fexp prec emax _ e' loc_Exact) as [mrs'' e''].
  destruct (shr_m mrs''); [reflexivity| |exact I].
  destruct (Z.leb e'' _); reflexivity.
Qed.

Lemma sqrt_sign (x : float) :
  match Prim2SF (sqrt x) with
  | S754_infinity s | S754_finite s _ _ => s = false
  | _ => True
  end.
Proof.
  rewrite sqrt_spec. unfold SF64sqrt, SFsqrt.
  destruct (Prim2SF x) as [s|s| |s m e]; try destruct s; try exact I; try reflexivity.
  destruct (SFsqrt_core_binary prec emax (Z.pos m) e) as [[mz ez] lz].
  pose proof (round_aux_sign false mz ez lz) as H.
  destruct (binary_round_aux prec emax false mz ez lz); auto.
Qed.

Lemma sub_sqrt_not_positive (r y : float) :
  (0 <? r)%float = false -> (0 <? r - sqrt y)%float = false.
Proof.
  rewrite !ltb_spec, sub_spec, SF_zero. pose proof (sqrt_sign y) as S.
  unfold SF64sub, SFsub, SFltb, SFcompare.
  destruct (Prim2SF r) as [sr|sr| |sr mr er];
    destruct (Prim2SF (sqrt y)) as [ss|ss| |ss ms es];
    try subst ss; try destruct sr; try destruct ss; cbn; try congruence.
  intros _. unfold binary_normalize.
  set (a := fst (shl_align mr er (Z.min er es))).
  set (b := fst (shl_align ms es (Z.min er es))).
  change (Z.neg a - Z.pos b)%Z with (Z.neg (a + b)).
  unfold binary_round.
  destruct (shl_align (a + b) _ _) as [mz ez].
  pose proof (round_aux_sign true (Z.pos mz) ez loc_Exact) as H.
  destruct (binary_round_aux prec emax true (Z.pos mz) ez loc_Exact); subst; reflexivity.
Qed.

Lemma map_const_repeat {A B : Type} (b : B) (l : list A) :
  map (fun _ => b) l = repeat b (length l).
Proof. induction l as [|x l IH]; cbn; congruence. Qed.

(** X14: with a radius that is not positive (zero, negative or NaN) the
    circle is empty: whatever the centre, every voxel of the level set
    is 0. *)
Theorem circle_levelset_empty (sh : list nat) (center : list float) (r : float) :
  (0 <? r)%float = false ->
  length center = length sh ->
  circle_levelset sh center r = Ok (np.zeros sh).
Proof.
  intros R L. unfold circle_levelset. rewrite L, Nat.eqb_refl.
  f_equal. unfold tabulate, np.zeros. f_equal.
  rewrite <- indices_length, <- map_const_repeat.
  apply map_ext. intro x. cbv zeta. now rewrite sub_sqrt_not_positive.
Qed.

Lemma circle_levelset_empty_witness :
  circle_levelset [4; 5] [2; 2]%float (-1) = Ok (np.zeros [4; 5]).
Proof.
  apply (circle_levelset_empty [4; 5] [2; 2]%float (-1)); reflexivity.
Defined.

Lemma binarize_fixes_binary (u : ndarray float) :
  binary u -> MorphACWE.binarize u = u.
Proof.
  intro B. destruct u as [sh l].
  assert (E : elems (MorphACWE.binarize (NDArray sh l)) = l).
  { rewrite binarize_elems. cbn [elems]. unfold binary in B. cbn [elems] in B.
    induction B as [|x l [-> | ->] _ IH]; cbn [map]; [reflexivity| |];
      rewrite IH; reflexivity. }
  unfold MorphACWE.binarize, np.assign_where, amap2 in *. cbn [shape elems] in *.
  now rewrite E.
Qed.

Lemma binarize_twice (u : ndarray float) :
  MorphACWE.binarize (MorphACWE.binarize u) = MorphACWE.binarize u.
Proof.
  assert (S : shape (MorphACWE.binarize u) = shape u) by reflexivity.
  assert (E : elems (MorphACWE.binarize (MorphACWE.binarize u))
              = elems (MorphACWE.binarize u)).
  { rewrite binarize_elems, binarize_elems, map_map. apply map_ext. intro x.
    destruct (x <=? 0)%float eqn:L; [reflexivity|].
    destruct (0 <? x)%float eqn:G; [reflexivity|].
    now rewrite L, G. }
  unfold MorphACWE.binarize at 1. unfold np.assign_where, amap2.
  cbn [shape elems].
  change (zip_with _ (zip_with _ _ _) _)
    with (elems (MorphACWE.binarize (MorphACWE.binarize u))).
  rewrite E. now destruct (MorphACWE.binarize u).
Qed.

Lemma circle_levelset_bits (sh : list nat) (f : list Z -> bool) :
  binary (tabulate sh (fun x => F.of_bool (f x))).
Proof.
  unfold binary, tabulate. cbn [elems]. apply Forall_forall. intros y Hy.
  apply in_map_iff in Hy. destruct Hy as (x & <- & _). apply of_bool_bit.
Qed.

(** X15: for a centre with one coordinate per axis, [circle_levelset]
    returns an array of the requested shape whose entries are all 0 or 1,
    and both evolvers store it as their level set exactly as it is. *)
Theorem circle_levelset_stored (sh : list nat) (center : list float) (r : float)
    (a : MorphACWE.t) (g : MorphGAC.t) (w : world) :
  length center = length sh ->
  sh <> [] ->
  exists u,
    circle_levelset sh center r = Ok u /\
    shape u = sh /\ wf u /\ binary u /\
    MorphACWE.set_levelset u (a, w) = (Ok tt, (MorphACWE.set_u a (Some u), w)) /\
    MorphGAC.set_levelset u (g, w) = (Ok tt, (MorphGAC.set_u g (Some u), w)).
Proof.
  intros L N. unfold circle_levelset. rewrite L, Nat.eqb_refl.
  eexists. split; [reflexivity|].
  split; [reflexivity|]. split; [apply tabulate_length|].
  pose proof (circle_levelset_bits sh
    (fun x => (0 <? r - sqrt (np.sum (map F.square
        (zip_with (fun i c => F.of_Z i - c) x center))))%float)) as B.
  cbv zeta. split; [exact B|].
  unfold MorphACWE.set_levelset, MorphGAC.set_levelset.
  rewrite (binarize_fixes_binary _ B). cbn [shape tabulate fst snd].
  destruct sh; [contradiction|]. split; reflexivity.
Qed.

Lemma circle_levelset_stored_witness :
  exists u,
    circle_levelset [4; 5] [2; 2]%float 1.5 = Ok u /\
    shape u = [4; 5] /\ wf u /\ binary u /\
    MorphACWE.set_levelset u (acwe_blob 1 all_zero, initial_world)
    = (Ok tt, (MorphACWE.set_u (acwe_blob 1 all_zero) (Some u), initial_world)) /\
    MorphGAC.set_levelset u (gac_blank, initial_world)
    = (Ok tt, (MorphGAC.set_u gac_blank (Some u), initial_world)).
Proof.
  apply (circle_levelset_stored [4; 5] [2; 2]%float 1.5); [reflexivity|discriminate].
Defined.

(** X16: binding a level set twice is binding it once: the binarisation of
    [set_levelset] is idempotent on every array, NaN entries included, so
    assigning an evolver's stored level set back to it changes nothing. *)
Theorem set_levelset_idempotent (u : ndarray float) (a : MorphACWE.t)
    (g : MorphGAC.t) (w : world) :
  shape u <> [] ->
  exists v,
    MorphACWE.set_levelset u (a, w) = (Ok tt, (MorphACWE.set_u a (Some v), w)) /\
    MorphACWE.set_levelset v (MorphACWE.set_u a (Some v), w)
    = (Ok tt, (MorphACWE.set_u a (Some v), w)) /\
    MorphGAC.set_levelset u (g, w) = (Ok tt, (MorphGAC.set_u g (Some v), w)) /\
    MorphGAC.set_levelset v (MorphGAC.set_u g (Some v), w)
    = (Ok tt, (MorphGAC.set_u g (Some v), w)).
Proof.
  intro N. exists (MorphACWE.binarize u).
  unfold MorphACWE.set_levelset, MorphGAC.set_levelset.
  rewrite binarize_twice.
  change (shape (MorphACWE.binarize u)) with (shape u).
  destruct (shape u); [contradiction|]. cbn [fst snd].
  repeat split; reflexivity.
Qed.

Lemma set_levelset_idempotent_witness :
  exists v,
    MorphACWE.set_levelset raw_levelset (acwe_blob 1 all_zero, initial_world)
    = (Ok tt, (MorphACWE.set_u (acwe_blob 1 all_zero) (Some v), initial_world)) /\
    MorphACWE.set_levelset v (MorphACWE.set_u (acwe_blob 1 all_zero) (Some v), initial_world)
    = (Ok tt, (MorphACWE.set_u (acwe_blob 1 all_zero) (Some v), initial_world)) /\
    MorphGAC.set_levelset raw_levelset (gac_blank, initial_world)
    = (Ok tt, (MorphGAC.set_u gac_blank (Some v), initial_world)) /\
    MorphGAC.set_levelset v (MorphGAC.set_u gac_blank (Some v), initial_world)
    = (Ok tt, (MorphGAC.set_u gac_blank (Some v), initial_world)).
Proof.
  apply (set_levelset_idempotent raw_levelset); discriminate.
Defined.

Lemma zero_unique (x : float) : Prim2SF x = S754_zero false -> x = 0%float.
Proof.
  intro H. rewrite <- (SF2Prim_Prim2SF x), H. reflexivity.
Qed.

Lemma sub_self_finite (c : float) : F.nonfinite c = false -> (c - c = 0)%float.
Proof.
  unfold F.nonfinite. intro H. apply zero_unique. rewrite sub_spec.
  unfold SF64sub, SFsub.
  destruct (Prim2SF c) as [s|s| |s m e]; try discriminate.
  - destruct s; reflexivity.
  - rewrite Z.sub_diag. reflexivity.
Qed.

Lemma sub_zero_positive (r : float) : (0 <? r)%float = true -> (r - 0 = r)%float.
Proof.
  rewrite ltb_spec, SF_zero. intro H. apply Prim2SF_inj.
  rewrite sub_spec, SF_zero. unfold SF64sub, SFsub.
  destruct (Prim2SF r) as [s|s| |s m e]; try discriminate; reflexivity.
Qed.

Lemma sum_zeros (n : nat) : np.sum (repeat 0%float n) = 0%float.
Proof.
  unfold np.sum. induction n as [|n IH]; [reflexivity|exact IH].
Qed.

(** X17: for any positive radius, also an infinite one, the voxel that the
    centre names lies inside the circle: its entry of the level set is 1. *)
Theorem circle_levelset_centre (sh : list nat) (r : float) (p : nat) :
  p < size sh ->
  Forall (fun i => F.nonfinite (F.of_Z i) = false) (nth p (indices sh) []) ->
  (0 <? r)%float = true ->
  exists u,
    circle_levelset sh (map F.of_Z (nth p (indices sh) [])) r = Ok u /\
    nth p (elems u) 0%float = 1%float.
Proof.
  intros Hp Fin R. unfold circle_levelset.
  rewrite length_map, (nth_indices_rank sh p Hp), Nat.eqb_refl.
  eexists. split; [reflexivity|].
  rewrite tabulate_nth by exact Hp. cbv zeta.
  rewrite zip_with_map_r, map_map.
  replace (map _ (nth p (indices sh) []))
    with (repeat 0%float (length (nth p (indices sh) []))).
  - rewrite sum_zeros. change (sqrt 0) with 0%float.
    rewrite (sub_zero_positive r R), R. reflexivity.
  - rewrite <- (map_const_repeat 0%float). apply map_ext_in. intros i Hi.
    rewrite Forall_forall in Fin. rewrite (sub_self_finite _ (Fin i Hi)).
    reflexivity.
Qed.

Lemma circle_levelset_centre_witness :
  exists u,
    circle_levelset [4; 5] (map F.of_Z (nth 12 (indices [4; 5]) [])) 0.25 = Ok u /\
    nth 12 (elems u) 0%float = 1%float.
Proof.
  apply (circle_levelset_centre [4; 5] 0.25 12).
  - cbn. lia.
  - repeat constructor.
  - reflexivity.
Defined.

(** ** soma_detect *)

Lemma bind_lift_raise {S A B : Type} (e : exn) (k : A -> M S B) (s : S) :
  bind (lift (Raise e)) k s = (Raise e, s).
Proof. reflexivity. Qed.

Lemma bind_lift_ok {S A B : Type} (a : A) (k : A -> M S B) (s : S) :
  bind (lift (Ok a)) k s = k a s.
Proof. reflexivity. Qed.

(** X18: an image of rank below three is refused with IndexError and an
    image whose third axis is empty with ZeroDivisionError, in both cases
    before anything is printed or written. *)
Theorem soma_detect_rejects_early
    (img : ndarray float) (somapos : list Z) (somaradius : float) (smoothing : Z)
    (lambda1 lambda2 : float) (soma : bool) (iterations : Z) (w : world) :
  (length (shape img) < 3 ->
   soma_detect img somapos somaradius smoothing lambda1 lambda2 soma iterations w
   = (Raise IndexError, w)) /\
  (forall n0 n1 rest, shape img = n0 :: n1 :: 0 :: rest ->
   soma_detect img somapos somaradius smoothing lambda1 lambda2 soma iterations w
   = (Raise ZeroDivisionError, w)).
Proof.
  unfold soma_detect. split.
  - intro H. destruct (shape img) as [|a [|b [|c r]]]; cbn [length] in H; try lia;
      unfold getitem; cbn [nth_error]; rewrite ?bind_lift_ok; cbv beta;
      apply bind_lift_raise.
  - intros n0 n1 rest ->. unfold getitem. cbn [nth_error].
    rewrite !bind_lift_ok. cbv beta. cbn [int_div]. apply bind_lift_raise.
Qed.

Lemma soma_detect_rejects_early_witness :
  soma_detect flat_img [2; 2; 2]%Z 4 1 1 1 false 1 initial_world
  = (Raise IndexError, initial_world) /\
  soma_detect hollow_img [2; 2; 0]%Z 4 1 1 1 false 1 initial_world
  = (Raise ZeroDivisionError, initial_world).
Proof.
  split.
  - apply (soma_detect_rejects_early flat_img [2; 2; 2]%Z 4 1 1 1 false 1 initial_world).
    cbn. lia.
  - apply (soma_detect_rejects_early hollow_img [2; 2; 0]%Z 4 1 1 1 false 1
             initial_world) with (n0 := 4) (n1 := 5) (rest := []).
    reflexivity.
Defined.

Lemma emit_aux_ok (e : event) (w w' : world) (x : unit) :
  emit e w = (Ok x, w') -> aux_ok w -> aux_ok w'.
Proof. unfold emit. intros [= _ <-] H. exact H. Qed.

Lemma report_binary (s : MorphACWE.t * world) :
  acwe_inv s -> acwe_inv (snd (report_convergence s)).
Proof. destruct s as [a w]. intro H. exact H. Qed.

Lemma autoconvg_loop_binary (n : nat) :
  forall i fg fd s,
  acwe_inv s -> acwe_inv (snd (MorphACWE.autoconvg_loop n i fg fd s)).
Proof.
  induction n as [|n IH]; intros i fg fd s H; [exact H|].
  rewrite autoconvg_loop_S. pose proof (acwe_step_binary s H) as H1.
  destruct (MorphACWE.step s) as [[[]|e] s1]; cbn [snd] in H1; [|exact H1].
  destruct (MorphACWE._u (fst s1)) as [u|]; [|exact H1]. cbv zeta.
  destruct (0 <? i)%nat; [|now apply IH].
  destruct (6 <? i)%nat; [|now apply IH].
  destruct (MorphACWE.stop_test _ _); [now apply report_binary|now apply IH].
Qed.

Lemma evolution_binary (o : MorphACWE.t) (u0 : ndarray float) (iterations : Z)
    (w w' : world) (r : unit * MorphACWE.t) :
  binary u0 -> aux_ok w ->
  with_object o
    (bind (MorphACWE.set_levelset u0) (fun _ =>
       if (iterations =? -1)%Z then MorphACWE.autoconvg
       else for_each (range iterations) (fun _ => MorphACWE.step))) w
  = (Ok r, w') ->
  exists u, MorphACWE._u (snd r) = Some u /\ binary u.
Proof.
  intros B A. unfold with_object, bind, MorphACWE.set_levelset. cbn [fst snd].
  rewrite (binarize_fixes_binary u0 B).
  destruct (shape u0); [discriminate|].
  assert (I : acwe_inv (MorphACWE.set_u o (Some u0), w)).
  { split; [exact A|]. exists u0. split; [reflexivity|exact B]. }
  set (c := if (iterations =? -1)%Z then MorphACWE.autoconvg else _).
  assert (J : acwe_inv (snd (c (MorphACWE.set_u o (Some u0), w)))).
  { subst c. destruct (iterations =? -1)%Z.
    - now apply autoconvg_loop_binary.
    - apply (for_each_inv acwe_inv (fun _ => MorphACWE.step)); [|exact I].
      intros _ s. apply acwe_step_binary. }
  destruct (c _) as [[a|e] [o' w1]]; [|discriminate].
  intros [= <- _]. destruct J as (_ & u & U & Bu). exists u. auto.
Qed.

Lemma mask_of_bit (x : float) : bit x -> mask_value (to_uint8 (x * 40)).
Proof. intros [-> | ->]; [left|right]; reflexivity. Qed.

Lemma paste3_mask (sh : list nat) (startpt endpt : list Z) (u full : ndarray float) :
  binary u ->
  paste3 sh startpt endpt (amap (fun x => x * 40)%float u) = Ok full ->
  shape full = sh /\ Forall mask_value (map to_uint8 (elems full)).
Proof.
  intros B. unfold paste3. destruct (shape_eqb _ _); [|discriminate].
  intros [= <-]. split; [reflexivity|].
  unfold tabulate. cbn [elems]. rewrite map_map.
  apply Forall_forall. intros z Hz. apply in_map_iff in Hz.
  destruct Hz as (x & <- & _).
  destruct (item _ _) as [v|] eqn:I; [|left; reflexivity].
  unfold item in I. destruct (ravel _ _) as [q|]; [|discriminate].
  apply nth_error_In in I. unfold amap in I. cbn [elems] in I.
  apply in_map_iff in I. destruct I as (y & <- & Hy).
  apply mask_of_bit. unfold binary in B. rewrite Forall_forall in B. auto.
Qed.

(** X19: whenever [soma_detect] returns, started with a scratch buffer the
    module can have left, the mask has the first three axes of the image as
    its shape and every element is 0 or 40. *)
Theorem soma_mask_values
    (img : ndarray float) (somapos : list Z) (somaradius : float) (smoothing : Z)
    (lambda1 lambda2 : float) (soma : bool) (iterations : Z)
    (w w' : world) (mask : ndarray Z) :
  aux_ok w ->
  soma_detect img somapos somaradius smoothing lambda1 lambda2 soma iterations w
  = (Ok mask, w') ->
  shape mask = firstn 3 (shape img) /\ Forall mask_value (elems mask).
Proof.
  intros A H. unfold soma_detect in H.
  repeat (cbv zeta in H; apply bind_ok in H; destruct H as (? & ? & ? & H)).
  repeat match goal with
         | L : lift (circle_levelset _ _ _) _ = (Ok _, _) |- _ =>
             unfold lift in L; injection L as L ?; subst
         | L : lift _ _ = (Ok _, _) |- _ => apply lift_ok in L; subst
         end.
  unfold print, writetiff3d in *.
  repeat match goal with
         | P : emit _ ?w1 = (Ok _, _), A1 : aux_ok ?w1 |- _ =>
             apply (emit_aux_ok _ _ _ _ P) in A1; clear P
         end.
  match goal with
  | C : circle_levelset _ _ _ = Ok ?u0 |- _ =>
      assert (B : binary u0)
  end.
  { match goal with
    | C : circle_levelset _ _ _ = Ok _ |- _ =>
        unfold circle_levelset in C; destruct (_ =? _)%nat; [|discriminate];
        injection C as <-; apply circle_levelset_bits
    end. }
  match goal with
  | O : with_object _ _ _ = (Ok ?r, _) |- _ =>
      destruct (evolution_binary _ _ _ _ _ _ B A O) as (u & U & Bu)
  end.
  rewrite U in H.
  apply bind_ok in H. destruct H as (full & ? & L & H).
  unfold lift in L. injection L as L _. injection H as <- _.
  destruct (paste3_mask _ _ _ _ _ Bu L) as [S F].
  split; [exact S|exact F].
Qed.

Lemma soma_mask_values_witness :
  shape (value (fst (soma_detect soma_img [3; 3; 3]%Z 1 1 1 1 false 1 initial_world))
           (NDArray [] []))
  = firstn 3 (shape soma_img) /\
  Forall mask_value
    (elems (value (fst (soma_detect soma_img [3; 3; 3]%Z 1 1 1 1 false 1 initial_world))
              (NDArray [] []))).
Proof.
  apply (soma_mask_values soma_img [3; 3; 3]%Z 1 1 1 1 false 1 initial_world
           (snd (soma_detect soma_img [3; 3; 3]%Z 1 1 1 1 false 1 initial_world))).
  - apply initial_aux_ok.
  - vm_compute. reflexivity.
Defined.
